(** * confkey: binding string values onto tagged structure fields

    A shallow embedding of [confkey.go].  Go strings are byte sequences and
    are modelled by [string] (a list of 8-bit [ascii]); runes, [int],
    [int64], [uint64] and [time.Duration] are modelled by [Z] with the
    wrap-around of the machine type written out where the code can reach it.
    The target structure is an ordered list of exported fields, each with its
    name, its tag (an association from tag keys to values) and its current
    value.  The mutating operations return the state of the target after the
    call together with the returned error, or record the run-time panic. *)

From Stdlib Require Import ZArith List String Ascii Bool Lia.
From Stdlib Require Import Floats.SpecFloat.
Import ListNotations.

Local Open Scope string_scope.
Local Open Scope Z_scope.

(** ** Bytes and byte strings *)

Definition byte (c : ascii) : Z := Z.of_nat (nat_of_ascii c).

Definition chr (n : Z) : ascii := ascii_of_nat (Z.to_nat n).

Fixpoint bytes (l : list Z) : string :=
  match l with
  | [] => EmptyString
  | b :: l' => String (chr b) (bytes l')
  end.

Definition len (s : string) : nat := String.length s.

(** [s[i:]] for [i <= len(s)]. *)
Fixpoint drop (i : nat) (s : string) : string :=
  match i, s with
  | O, _ => s
  | S i', String _ s' => drop i' s'
  | S _, EmptyString => EmptyString
  end.

(** [s[:i]] for [i <= len(s)]. *)
Fixpoint take (i : nat) (s : string) : string :=
  match i, s with
  | O, _ => EmptyString
  | S i', String c s' => String c (take i' s')
  | S _, EmptyString => EmptyString
  end.

(** [s[i]], as a byte value; the callers only index inside the string. *)
Definition at_ (s : string) (i : nat) : Z :=
  match String.get i s with
  | Some c => byte c
  | None => 0
  end.

(** ** Package unicode/utf8 *)

Module utf8.

Definition RuneError : Z := 65533.
Definition RuneSelf : Z := 128.
Definition UTFMax : nat := 4.
Definition MaxRune : Z := 1114111.

(** The entry of the table [first] for a leading byte: the length of the
    sequence it starts and the accepted range of the second byte; [None]
    for a byte that starts no multi-byte sequence. *)
Definition first (b : Z) : option (nat * Z * Z) :=
  if (194 <=? b) && (b <=? 223) then Some (2%nat, 128, 191)
  else if b =? 224 then Some (3%nat, 160, 191)
  else if (225 <=? b) && (b <=? 236) then Some (3%nat, 128, 191)
  else if b =? 237 then Some (3%nat, 128, 159)
  else if (238 <=? b) && (b <=? 239) then Some (3%nat, 128, 191)
  else if b =? 240 then Some (4%nat, 144, 191)
  else if (241 <=? b) && (b <=? 243) then Some (4%nat, 128, 191)
  else if b =? 244 then Some (4%nat, 128, 143)
  else None.

Definition cont (b : Z) : bool := (128 <=? b) && (b <=? 191).

(** [DecodeRuneInString]: the first rune of [s] and its width in bytes;
    [(RuneError, 0)] on the empty string and [(RuneError, 1)] on an
    invalid encoding. *)
Definition DecodeRuneInString (s : string) : Z * nat :=
  match s with
  | EmptyString => (RuneError, 0%nat)
  | String c0 _ =>
    let s0 := byte c0 in
    if s0 <? RuneSelf then (s0, 1%nat)
    else
      match first s0 with
      | None => (RuneError, 1%nat)
      | Some (sz, lo, hi) =>
        if (len s <? sz)%nat then (RuneError, 1%nat)
        else
          let s1 := at_ s 1 in
          if (s1 <? lo) || (hi <? s1) then (RuneError, 1%nat)
          else if (sz <=? 2)%nat then
            (Z.lor (Z.shiftl (Z.land s0 31) 6) (Z.land s1 63), 2%nat)
          else
            let s2 := at_ s 2 in
            if negb (cont s2) then (RuneError, 1%nat)
            else if (sz <=? 3)%nat then
              (Z.lor (Z.lor (Z.shiftl (Z.land s0 15) 12)
                            (Z.shiftl (Z.land s1 63) 6))
                     (Z.land s2 63), 3%nat)
            else
              let s3 := at_ s 3 in
              if negb (cont s3) then (RuneError, 1%nat)
              else
                (Z.lor (Z.lor (Z.lor (Z.shiftl (Z.land s0 7) 18)
                                     (Z.shiftl (Z.land s1 63) 12))
                              (Z.shiftl (Z.land s2 63) 6))
                       (Z.land s3 63), 4%nat)
      end
  end.

(** [RuneStart]: the byte is not a continuation byte. *)
Definition RuneStart (b : Z) : bool := negb (Z.land b 192 =? 128).

(** The backward scan of [DecodeLastRuneInString]:
    [for start--; start >= lim; start-- { if RuneStart(s[start]) break }],
    entered with [start] already decremented; [n] bounds the iterations
    (at most [UTFMax - 1] positions lie between [lim] and [end - 2]).
    The result is [start] after the loop, as an integer (it can be
    [lim - 1]). *)
Fixpoint scan_back (n : nat) (s : string) (start lim : Z) : Z :=
  match n with
  | O => start
  | S n' =>
    if start <? lim then start
    else if RuneStart (at_ s (Z.to_nat start)) then start
    else scan_back n' s (start - 1) lim
  end.

(** [DecodeLastRuneInString]. *)
Definition DecodeLastRuneInString (s : string) : Z * nat :=
  let end_ := Z.of_nat (len s) in
  if end_ =? 0 then (RuneError, 0%nat)
  else
    let start := end_ - 1 in
    let r := at_ s (Z.to_nat start) in
    if r <? RuneSelf then (r, 1%nat)
    else
      let lim := Z.max 0 (end_ - Z.of_nat UTFMax) in
      let start := scan_back (S UTFMax) s (start - 1) lim in
      let start := Z.max 0 start in
      let '(r, size) := DecodeRuneInString (drop (Z.to_nat start) s) in
      if negb (start + Z.of_nat size =? end_) then (RuneError, 1%nat)
      else (r, size).

(** [EncodeRune], as the bytes appended for one rune; a surrogate or an
    out-of-range rune is encoded as [RuneError]. *)
Definition EncodeRune (r : Z) : string :=
  let three (r : Z) :=
    bytes [Z.lor 224 (Z.shiftr r 12);
           Z.lor 128 (Z.land (Z.shiftr r 6) 63);
           Z.lor 128 (Z.land r 63)] in
  if (0 <=? r) && (r <=? 127) then bytes [r]
  else if (0 <=? r) && (r <=? 2047) then
    bytes [Z.lor 192 (Z.shiftr r 6); Z.lor 128 (Z.land r 63)]
  else if (r <? 0) || (MaxRune <? r) || ((55296 <=? r) && (r <=? 57343))
  then three RuneError
  else if r <=? 65535 then three r
  else
    bytes [Z.lor 240 (Z.shiftr r 18);
           Z.lor 128 (Z.land (Z.shiftr r 12) 63);
           Z.lor 128 (Z.land (Z.shiftr r 6) 63);
           Z.lor 128 (Z.land r 63)].

End utf8.

(** The conversion [[]rune(s)]: the runes of [s] in order, one [RuneError]
    per invalid byte.  [skip] counts the bytes of the current rune that are
    still to be passed over. *)
Fixpoint runes_from (skip : nat) (s : string) : list Z :=
  match s with
  | EmptyString => []
  | String _ s' =>
    match skip with
    | S k => runes_from k s'
    | O =>
      let '(r, size) := utf8.DecodeRuneInString s in
      r :: runes_from (Nat.pred size) s'
    end
  end.

Definition runes_of_string (s : string) : list Z := runes_from 0 s.

(** The conversion [string(a)] of a rune slice. *)
Fixpoint string_of_runes (a : list Z) : string :=
  match a with
  | [] => EmptyString
  | r :: a' => utf8.EncodeRune r ++ string_of_runes a'
  end.

(** ** Package unicode *)

Module unicode.

Definition MaxASCII : Z := 127.
Definition MaxLatin1 : Z := 255.

(** [IsSpace]: the Latin-1 spaces are listed in the function; above
    Latin-1 the table [White_Space] holds U+1680, U+2000..U+200A, U+2028,
    U+2029, U+202F, U+205F and U+3000. *)
Definition IsSpace (r : Z) : bool :=
  if (0 <=? r) && (r <=? MaxLatin1) then
    (r =? 9) || (r =? 10) || (r =? 11) || (r =? 12) || (r =? 13)
    || (r =? 32) || (r =? 133) || (r =? 160)
  else
    (r =? 5760) || ((8192 <=? r) && (r <=? 8202)) || (r =? 8232)
    || (r =? 8233) || (r =? 8239) || (r =? 8287) || (r =? 12288).

Section ToUpper.
(** [To(UpperCase, r)], the lookup in the table [CaseRanges]; the code
    reaches it only for runes above [MaxASCII]. *)
Variable To_UpperCase : Z -> Z.

Definition ToUpper (r : Z) : Z :=
  if r <=? MaxASCII then
    if (97 <=? r) && (r <=? 122) then r - 32 else r
  else To_UpperCase r.
End ToUpper.

End unicode.

(** ** Package strings *)

Module strings.

(** [TrimLeftFunc(s, f)]: [indexFunc] ranges over the runes of [s] and the
    result is [s] from the first rune that [f] rejects, or the empty
    string when there is none. *)
Fixpoint TrimLeftFunc_from (f : Z -> bool) (skip : nat) (s : string)
  : string :=
  match s with
  | EmptyString => EmptyString
  | String _ s' =>
    match skip with
    | S k => TrimLeftFunc_from f k s'
    | O =>
      let '(r, size) := utf8.DecodeRuneInString s in
      if f r then TrimLeftFunc_from f (Nat.pred size) s' else s
    end
  end.

Definition TrimLeftFunc (s : string) (f : Z -> bool) : string :=
  TrimLeftFunc_from f 0 s.

(** [lastIndexFunc(s, f, false)]: the index of the last rune that [f]
    rejects, or -1.  Every iteration lowers [i] by at least one, so
    [len s] iterations are enough. *)
Fixpoint lastIndexFunc_loop (n : nat) (s : string) (f : Z -> bool)
         (i : nat) : Z :=
  match n with
  | O => -1
  | S n' =>
    if (i =? 0)%nat then -1
    else
      let '(r, size) := utf8.DecodeLastRuneInString (take i s) in
      let i := (i - size)%nat in
      if negb (f r) then Z.of_nat i
      else lastIndexFunc_loop n' s f i
  end.

Definition lastIndexFunc (s : string) (f : Z -> bool) : Z :=
  lastIndexFunc_loop (S (len s)) s f (len s).

Definition TrimRightFunc (s : string) (f : Z -> bool) : string :=
  let i := lastIndexFunc s f in
  let i :=
    if (0 <=? i) && (utf8.RuneSelf <=? at_ s (Z.to_nat i)) then
      let '(_, wid) := utf8.DecodeRuneInString (drop (Z.to_nat i) s) in
      i + Z.of_nat wid
    else i + 1 in
  take (Z.to_nat i) s.

Definition TrimFunc (s : string) (f : Z -> bool) : string :=
  TrimRightFunc (TrimLeftFunc s f) f.

(** [TrimSpace].  The library scans ASCII bytes on a fast path and hands
    over to [TrimFunc(_, unicode.IsSpace)] at the first non-ASCII byte;
    both compute the result of [TrimFunc] on the whole string. *)
Definition TrimSpace (s : string) : string := TrimFunc s unicode.IsSpace.

(** [Split(s, sep)] for a separator of one byte, which is what every call
    in this package passes: the substrings between the separators, empty
    ones included; one element when the separator does not occur. *)
Fixpoint Split (s : string) (sep : ascii) : list string :=
  match s with
  | EmptyString => [EmptyString]
  | String c s' =>
    if Ascii.eqb c sep then EmptyString :: Split s' sep
    else
      match Split s' sep with
      | h :: t => String c h :: t
      | [] => [String c EmptyString]
      end
  end.

End strings.

(** ** Errors *)

Inductive numerr := ErrSyntax | ErrRange.

Inductive error :=
| PointerRequired
  (** [errors.New("pointer is required")] *)
| NoFieldWithConfkey (key : string)
  (** "can't find any structure element configured with confkey '%s'" *)
| NumError (Func Num : string) (Err : numerr)
  (** [*strconv.NumError] *)
| InvalidDuration (orig : string)
  (** "time: invalid duration ..." *)
| MissingUnit (orig : string)
  (** "time: missing unit in duration ..." *)
| UnknownUnit (u orig : string)
  (** "time: unknown unit ... in duration ..." *)
| CannotConvertBool (clean : string)
  (** "cannot convert string value '...' into a boolean." *)
| ReflectionsError (msg : string)
  (** an error of package reflections *)
| ValidationError (msg : string).
  (** an error of the validation package *)

(** The errors the conversions of a raw string produce. *)
Definition ConversionError (e : error) : Prop :=
  match e with
  | NumError _ _ _ | InvalidDuration _ | MissingUnit _ | UnknownUnit _ _
  | CannotConvertBool _ => True
  | _ => False
  end.

Definition isDigit (c : ascii) : bool := (48 <=? byte c) && (byte c <=? 57).

(** ** Package regexp, for the two kinds of pattern the package uses *)

Module regexp.

(** [MatchString("\\A\\d+\\z", s)]: one or more ASCII digits and nothing
    else.  The pattern compiles, so the error result is always nil. *)
Fixpoint all_digits (s : string) : bool :=
  match s with
  | EmptyString => true
  | String c s' => isDigit c && all_digits s'
  end.

Definition Match_digits (s : string) : bool :=
  match s with
  | EmptyString => false
  | _ => all_digits s
  end.

(** Under the flag [(?i)] a literal matches every rune of its case-folding
    orbit ([unicode.SimpleFold]): both cases of a letter, and for [s] also
    U+017F (long s). *)
Definition fold_eq (p : ascii) (r : Z) : bool :=
  let b := byte p in
  if (97 <=? b) && (b <=? 122) then
    (r =? b) || (r =? b - 32) || ((b =? 115) && (r =? 383))
  else r =? b.

Fixpoint fold_match (pat : string) (rs : list Z) : bool :=
  match pat, rs with
  | EmptyString, [] => true
  | String p pat', r :: rs' => fold_eq p r && fold_match pat' rs'
  | _, _ => false
  end.

(** [MustCompile(`(?i)^(w1|...|wn)$`).MatchString(s)]: the whole input is
    one of the words, up to case folding.  The input is read as UTF-8. *)
Definition Match_words (words : list string) (s : string) : bool :=
  existsb (fun w => fold_match w (runes_of_string s)) words.

End regexp.

(** ** Package strconv *)

Module strconv.

Definition maxUint64 : Z := 2 ^ 64 - 1.

(** The loop of [ParseUint(s, 10, 64)] after the check for the empty
    string. *)
Fixpoint ParseUint_loop (n : Z) (s : string) : Z + numerr :=
  match s with
  | EmptyString => inl n
  | String c s' =>
    if negb (isDigit c) then inr ErrSyntax
    else if n >=? maxUint64 / 10 + 1 then inr ErrRange
    else
      let n1 := n * 10 + (byte c - 48) in
      if n1 >? maxUint64 then inr ErrRange
      else ParseUint_loop n1 s'
  end.

Definition ParseUint (s : string) : Z + numerr :=
  match s with
  | EmptyString => inr ErrSyntax
  | _ => ParseUint_loop 0 s
  end.

(** [Atoi] where [int] has 64 bits: an optional sign and decimal digits,
    within the range of [int]. *)
Definition Atoi (s : string) : Z + error :=
  match s with
  | EmptyString => inr (NumError "Atoi" s ErrSyntax)
  | String c s' =>
    let neg := Ascii.eqb c "-" in
    let body := if Ascii.eqb c "+" || neg then s' else s in
    match ParseUint body with
    | inr e => inr (NumError "Atoi" s e)
    | inl un =>
      let cutoff := 2 ^ 63 in
      if negb neg && (un >=? cutoff) then inr (NumError "Atoi" s ErrRange)
      else if neg && (un >? cutoff) then inr (NumError "Atoi" s ErrRange)
      else inl (if neg then - un else un)
    end
  end.

End strconv.


(** ** Package time *)

Module time.

Definition Nanosecond : Z := 1.
Definition Microsecond : Z := 1000 * Nanosecond.
Definition Millisecond : Z := 1000 * Microsecond.
Definition Second : Z := 1000 * Millisecond.
Definition Minute : Z := 60 * Second.
Definition Hour : Z := 60 * Minute.

(** [float64] values are IEEE 754 binary64 numbers. *)
Definition float64 := spec_float.
Definition fmul : float64 -> float64 -> float64 := SFmul 53 1024.
Definition fdiv : float64 -> float64 -> float64 := SFdiv 53 1024.

(** [float64(n)] for an unsigned integer, rounded to nearest even. *)
Definition float64_of (n : Z) : float64 := binary_normalize 53 1024 n 0 false.

(** [uint64(x)] for a float in the range of [uint64]: truncation. *)
Definition uint64_of (x : float64) : Z :=
  match x with
  | S754_finite false m e =>
    if 0 <=? e then Zpos m * 2 ^ e else Zpos m / 2 ^ (- e)
  | _ => 0
  end.

Definition uint64 (z : Z) : Z := z mod 2 ^ 64.

(** [unitMap]; the micro sign (U+00B5) and the Greek mu (U+03BC) are both
    accepted for microseconds. *)
Definition unitMap (u : string) : option Z :=
  if String.eqb u "ns" then Some Nanosecond
  else if String.eqb u "us" then Some Microsecond
  else if String.eqb u (bytes [194; 181; 115]) then Some Microsecond
  else if String.eqb u (bytes [206; 188; 115]) then Some Microsecond
  else if String.eqb u "ms" then Some Millisecond
  else if String.eqb u "s" then Some Second
  else if String.eqb u "m" then Some Minute
  else if String.eqb u "h" then Some Hour
  else None.

(** [leadingInt]: the leading digits of [s] as an integer and the rest of
    [s]; [None] when the integer overflows. *)
Fixpoint leadingInt (x : Z) (s : string) : option (Z * string) :=
  match s with
  | EmptyString => Some (x, s)
  | String c s' =>
    if negb (isDigit c) then Some (x, s)
    else if x >? 2 ^ 63 / 10 then None
    else
      let x := x * 10 + (byte c - 48) in
      if x >? 2 ^ 63 then None else leadingInt x s'
  end.

(** [leadingFraction]: the leading digits of [s] as an integer [x] with
    the power of ten [scale] that turns it into a fraction; digits that
    would overflow are dropped. *)
Fixpoint leadingFraction (x : Z) (scale : float64) (overflow : bool)
         (s : string) : Z * float64 * string :=
  match s with
  | EmptyString => (x, scale, s)
  | String c s' =>
    if negb (isDigit c) then (x, scale, s)
    else if overflow then leadingFraction x scale true s'
    else if x >? (2 ^ 63 - 1) / 10 then leadingFraction x scale true s'
    else
      let y := x * 10 + (byte c - 48) in
      if y >? 2 ^ 63 then leadingFraction x scale true s'
      else leadingFraction y (fmul scale (float64_of 10)) false s'
  end.

(** The scan for the end of the unit: the bytes before the first of
    [.0123456789], and the rest. *)
Fixpoint unit_span (s : string) : string * string :=
  match s with
  | EmptyString => (EmptyString, EmptyString)
  | String c s' =>
    if Ascii.eqb c "." || isDigit c then (EmptyString, s)
    else let '(u, rest) := unit_span s' in (String c u, rest)
  end.

(** The loop [for s != ""] of [ParseDuration], which adds one
    number-and-unit group to [d] per iteration.  A group has at least one
    byte, so [len s] iterations are enough. *)
Fixpoint ParseDuration_loop (n : nat) (orig s : string) (d : Z)
  : Z + error :=
  match n, s with
  | _, EmptyString => inl d
  | O, _ => inl d
  | S n', String c0 _ =>
    if negb (Ascii.eqb c0 "." || isDigit c0) then inr (InvalidDuration orig)
    else
      let pl := len s in
      match leadingInt 0 s with
      | None => inr (InvalidDuration orig)
      | Some (v, s) =>
        let pre := negb (pl =? len s)%nat in
        let '(f, scale, s, post) :=
          match s with
          | String c s1 =>
            if Ascii.eqb c "." then
              let '(f, scale, s2) :=
                leadingFraction 0 (float64_of 1) false s1 in
              (f, scale, s2, negb (len s1 =? len s2)%nat)
            else (0, float64_of 1, s, false)
          | EmptyString => (0, float64_of 1, s, false)
          end in
        if negb pre && negb post then inr (InvalidDuration orig)
        else
          let '(u, s) := unit_span s in
          if (len u =? 0)%nat then inr (MissingUnit orig)
          else
            match unitMap u with
            | None => inr (UnknownUnit u orig)
            | Some unit =>
              if v >? 2 ^ 63 / unit then inr (InvalidDuration orig)
              else
                let v := v * unit in
                let v :=
                  if f >? 0 then
                    uint64 (v + uint64_of
                                  (fmul (float64_of f)
                                        (fdiv (float64_of unit) scale)))
                  else v in
                if (f >? 0) && (v >? 2 ^ 63) then inr (InvalidDuration orig)
                else
                  let d := uint64 (d + v) in
                  if d >? 2 ^ 63 then inr (InvalidDuration orig)
                  else ParseDuration_loop n' orig s d
            end
      end
  end.

(** Two's-complement wrap-around of [int64]. *)
Definition int64 (z : Z) : Z := (z + 2 ^ 63) mod 2 ^ 64 - 2 ^ 63.

(** [ParseDuration]: a signed sequence of decimal numbers, each with an
    optional fraction and a unit suffix; the result is in nanoseconds. *)
Definition ParseDuration (s : string) : Z + error :=
  let orig := s in
  let '(neg, s) :=
    match s with
    | String c s' =>
      if Ascii.eqb c "-" || Ascii.eqb c "+" then (Ascii.eqb c "-", s')
      else (false, s)
    | EmptyString => (false, s)
    end in
  if String.eqb s "0" then inl 0
  else if String.eqb s "" then inr (InvalidDuration orig)
  else
    match ParseDuration_loop (len s) orig s 0 with
    | inr e => inr e
    | inl d =>
      if neg then inl (int64 (- d))
      else if d >? 2 ^ 63 - 1 then inr (InvalidDuration orig)
      else inl d
    end.

End time.

(** ** The target: package reflect and package reflections *)

Module reflect.
(** The kinds the package distinguishes; [Other] stands for every other
    kind (floats, maps, structs, ...). *)
Inductive Kind := Invalid | Bool | Int | Int64 | String | Slice | Other.

Definition Kind_eqb (a b : Kind) : bool :=
  match a, b with
  | Invalid, Invalid | Bool, Bool | Int, Int | Int64, Int64
  | String, String | Slice, Slice | Other, Other => true
  | _, _ => false
  end.
End reflect.

(** The current value of a field, by its Go type.  [VOther k] is a value of
    any other type of kind [k], for instance a named string type or a slice
    of integers; the package never reads or writes its contents. *)
Inductive value :=
| VBool (b : bool)               (** [bool] *)
| VInt (n : Z)                   (** [int] *)
| VInt64 (n : Z)                 (** [int64] *)
| VDuration (n : Z)              (** [time.Duration], of kind [Int64] *)
| VString (s : string)           (** [string] *)
| VStrings (l : list string)     (** [[]string] *)
| VOther (k : reflect.Kind).

Definition kind_of (v : value) : reflect.Kind :=
  match v with
  | VBool _ => reflect.Bool
  | VInt _ => reflect.Int
  | VInt64 _ | VDuration _ => reflect.Int64
  | VString _ => reflect.String
  | VStrings _ => reflect.Slice
  | VOther k => k
  end.

(** An exported field: its name, its tag and its current value. *)
Record StructField := mkField {
  Name : string;
  Tag : list (string * string);
  Val : value
}.

Definition structure := list StructField.

(** [StructTag.Get(key)]: the value of the first entry for [key], the empty
    string when the tag has no such entry. *)
Fixpoint Get (tag : list (string * string)) (key : string) : string :=
  match tag with
  | [] => EmptyString
  | (k, v) :: tag' => if String.eqb k key then v else Get tag' key
  end.

(** What is passed as [target interface{}]: a pointer to a structure, a
    structure by value, or a value that is neither. *)
Inductive target :=
| PtrTo (s : structure)
| ByValue (s : structure)
| Scalar.

(** What is passed as [value interface{}]: a string or something else. *)
Inductive any := Str (s : string) | NotStr.

(** [FieldByName]: the field of that name. *)
Fixpoint FieldByName (s : structure) (name : string) : option StructField :=
  match s with
  | [] => None
  | f :: s' => if String.eqb (Name f) name then Some f else FieldByName s' name
  end.

(** The write through [field.Addr()]: the named field takes the value [v]. *)
Fixpoint store (s : structure) (name : string) (v : value) : structure :=
  match s with
  | [] => []
  | f :: s' =>
    if String.eqb (Name f) name then mkField (Name f) (Tag f) v :: s'
    else f :: store s' name v
  end.

Module reflections.

Definition structure_of (obj : target) : option structure :=
  match obj with
  | PtrTo s | ByValue s => Some s
  | Scalar => None
  end.

(** [Fields]: the names of the exported fields, in declaration order. *)
Definition Fields (obj : target) : list string + error :=
  match structure_of obj with
  | Some s => inl (map Name s)
  | None => inr (ReflectionsError "Cannot use GetField on a non-struct interface")
  end.

Definition lookup (obj : target) (name : string) : StructField + error :=
  match structure_of obj with
  | None => inr (ReflectionsError "Cannot use GetField on a non-struct interface")
  | Some s =>
    match FieldByName s name with
    | Some f => inl f
    | None => inr (ReflectionsError ("No such field: " ++ name ++ " in obj"))
    end
  end.

(** [GetFieldTag] returns [field.Tag.Get(tagKey), nil] for every field
    that exists: a tag key the field does not declare gives the empty
    string and no error. *)
Definition GetFieldTag (obj : target) (fieldName tagKey : string)
  : string + error :=
  match lookup obj fieldName with
  | inl f => inl (Get (Tag f) tagKey)
  | inr e => inr e
  end.

Definition GetField (obj : target) (name : string) : value + error :=
  match lookup obj name with
  | inl f => inl (Val f)
  | inr e => inr e
  end.

Definition GetFieldKind (obj : target) (name : string)
  : reflect.Kind + error :=
  match lookup obj name with
  | inl f => inl (kind_of (Val f))
  | inr e => inr e
  end.

End reflections.

(** ** Package os *)

Definition environment := string -> option string.

(** [os.LookupEnv]: the empty name is never set. *)
Definition LookupEnv (env : environment) (key : string) : option string :=
  if String.eqb key "" then None else env key.

Definition no_environment : environment := fun _ => None.

(** ** Package confkey *)

(** The result of a call that can panic. *)
Inductive result (A : Type) :=
| Ret (a : A)
| Panics.
Arguments Ret {A} a.
Arguments Panics {A}.

(** The result of a mutating call: the error returned and the target as the
    call leaves it, or a panic and the target at that point. *)
Inductive outcome :=
| Return (err : option error) (t : target)
| Panic (t : target).

(** retrieve a tag for a struct field *)
Definition tag (s : target) (field tag : string) : string * bool :=
  match reflections.GetFieldTag s field tag with
  | inl val => (val, true)
  | inr _ => (EmptyString, false)
  end.

(** determines the struct key name that is tagged with a certain confkey *)
Fixpoint fieldWithKey_loop (s : target) (fields : list string) (key : string)
  : string + error :=
  match fields with
  | [] => inr (NoFieldWithConfkey key)
  | field :: fields' =>
    let '(confkey, _) := tag s field "confkey" in
    if String.eqb confkey key then inl field
    else fieldWithKey_loop s fields' key
  end.

Definition fieldWithKey (s : target) (key : string) : string + error :=
  match reflections.Fields s with
  | inr _ => inr (NoFieldWithConfkey key)
  | inl fields => fieldWithKey_loop s fields key
  end.

(** StrToBool converts a typical boolianish string to bool. *)
Definition strToBool (s : string) : bool * option error :=
  let clean := strings.TrimSpace s in
  if regexp.Match_words ["1"; "yes"; "true"; "y"; "t"] clean then (true, None)
  else if regexp.Match_words ["0"; "no"; "false"; "n"; "f"] clean
  then (false, None)
  else (false, Some (CannotConvertBool clean)).

Definition getFieldValAndKind (t : target) (key : string)
  : (value * reflect.Kind) + error :=
  match fieldWithKey t key with
  | inr err => inr err
  | inl item =>
    match reflections.GetField t item with
    | inr err => inr err
    | inl val =>
      match reflections.GetFieldKind t item with
      | inr err => inr err
      | inl kind => inl (val, kind)
      end
    end
  end.

(** StringFieldWithKey retrieves a string from target that matches key, the
    empty string when not found *)
Definition StringFieldWithKey (t : target) (key : string) : string :=
  match getFieldValAndKind t key with
  | inr _ => EmptyString
  | inl (val, kind) =>
    if reflect.Kind_eqb kind reflect.String then
      match val with VString v => v | _ => EmptyString end
    else EmptyString
  end.

(** StringListWithKey retrieves a []string from target that matches key,
    empty when not found *)
Definition StringListWithKey (t : target) (key : string) : list string :=
  match getFieldValAndKind t key with
  | inr _ => []
  | inl (val, kind) =>
    if reflect.Kind_eqb kind reflect.Slice then
      match val with VStrings v => v | _ => [] end
    else []
  end.

(** BoolWithKey retrieves a bool from target that matches key, false when
    not found *)
Definition BoolWithKey (t : target) (key : string) : bool :=
  match getFieldValAndKind t key with
  | inr _ => false
  | inl (val, kind) =>
    if reflect.Kind_eqb kind reflect.Bool then
      match val with VBool v => v | _ => false end
    else false
  end.

(** IntWithKey retrieves an int from target that matches key, 0 when not
    found *)
Definition IntWithKey (t : target) (key : string) : Z :=
  match getFieldValAndKind t key with
  | inr _ => 0
  | inl (val, kind) =>
    if reflect.Kind_eqb kind reflect.Int then
      match val with VInt v => v | _ => 0 end
    else 0
  end.

(** Int64WithKey retrieves an int from target that matches key, 0 when not
    found.  The type assertion [val.(int64)] is unchecked and panics on a
    field of kind [Int64] whose type is not [int64]. *)
Definition Int64WithKey (t : target) (key : string) : result Z :=
  match getFieldValAndKind t key with
  | inr _ => Ret 0
  | inl (val, kind) =>
    if reflect.Kind_eqb kind reflect.Int64 then
      match val with VInt64 v => Ret v | _ => Panics end
    else Ret 0
  end.

(** The loop over [vals] that appends [strings.TrimSpace(v)] to the slice
    behind [ptr] for each [v]. *)
Fixpoint append_trimmed (ptr vals : list string) : list string :=
  match vals with
  | [] => ptr
  | v :: vals' => append_trimmed (ptr ++ [strings.TrimSpace v]) vals'
  end.

(** How the [switch field.Kind()] of [SetStructFieldWithKey] ends: it runs
    to its end with the field holding [v], it returns [err] (every such
    return precedes the write to the field), or a type assertion or an index
    panics while the field holds [v]. *)
Inductive assignment :=
| Done (v : value)
| Failed (err : error)
| Panicked (v : value).

Section Binder.

(** [unicode.To(UpperCase, _)], the case table above ASCII. *)
Variable To_UpperCase : Z -> Z.

(** [os.PathListSeparator] of the host. *)
Variable PathListSeparator : ascii.

(** [validator.ValidateStructField(target, item)], by the error it
    returns for the structure as it stands. *)
Variable ValidateStructField : structure -> string -> option error.

(** The [switch field.Kind()] of [SetStructFieldWithKey] for the field
    [field] named [item], with [value] already resolved against the
    environment. *)
Definition convert (t : target) (item : string) (field : StructField)
           (value : any) : assignment :=
  match kind_of (Val field) with
  | reflect.Slice =>
    match Val field with
    | VStrings old =>
      let '(tg, ok) := tag t item "type" in
      if ok then
        if String.eqb tg "comma_split" then
          match value with
          | Str raw => Done (VStrings (append_trimmed [] (strings.Split raw ",")))
          | NotStr => Panicked (VStrings [])
          end
        else if String.eqb tg "colon_split" then
          match value with
          | Str raw => Done (VStrings (append_trimmed old (strings.Split raw ":")))
          | NotStr => Panicked (Val field)
          end
        else if String.eqb tg "path_split" then
          match value with
          | Str raw =>
            Done (VStrings (append_trimmed old
                              (strings.Split raw PathListSeparator)))
          | NotStr => Panicked (Val field)
          end
        else Done (Val field)
      else
        match value with
        | Str raw => Done (VStrings (old ++ [strings.TrimSpace raw]))
        | NotStr => Panicked (Val field)
        end
    | _ => Panicked (Val field)
    end
  | reflect.Int =>
    match Val field, value with
    | VInt _, Str raw =>
      match strconv.Atoi raw with
      | inr err => Failed err
      | inl i => Done (VInt i)
      end
    | _, _ => Panicked (Val field)
    end
  | reflect.Int64 =>
    let '(tg, ok) := tag t item "type" in
    if ok && String.eqb tg "duration" then
      match Val field, value with
      | VDuration _, Str raw =>
        if regexp.Match_digits raw then
          match strconv.Atoi raw with
          | inr err => Failed err
          | inl i => Done (VDuration (time.int64 (time.Second * i)))
          end
        else
          match time.ParseDuration raw with
          | inr err => Failed err
          | inl d => Done (VDuration d)
          end
      | _, _ => Panicked (Val field)
      end
    else Done (Val field)
  | reflect.String =>
    match Val field, value with
    | VString _, Str raw =>
      let '(tg, ok) := tag t item "type" in
      if ok && String.eqb tg "title_string" then
        match runes_of_string raw with
        | [] => Panicked (VString raw)
        | a0 :: a =>
          Done (VString (string_of_runes
                           (unicode.ToUpper To_UpperCase a0 :: a)))
        end
      else Done (VString raw)
    | _, _ => Panicked (Val field)
    end
  | reflect.Bool =>
    match Val field, value with
    | VBool _, Str raw => let '(b, _) := strToBool raw in Done (VBool b)
    | _, _ => Panicked (Val field)
    end
  | _ => Done (Val field)
  end.

(** The override of [value] by the variable named in the tag
    [environment], when that variable is set. *)
Definition override (env : environment) (t : target) (item : string)
           (value : any) : any :=
  let '(tg, ok) := tag t item "environment" in
  if ok then
    match LookupEnv env tg with
    | Some v => Str v
    | None => value
    end
  else value.

(** SetStructFieldWithKey finds the struct key that matches the confkey on
    target and assign the value to it *)
Definition SetStructFieldWithKey (env : environment) (t : target)
           (key : string) (value : any) : outcome :=
  match t with
  | PtrTo s =>
    match fieldWithKey t key with
    | inr err => Return (Some err) t
    | inl item =>
      let value := override env t item value in
      match FieldByName s item with
      | None => Return (ValidateStructField s item) t
      | Some field =>
        match convert t item field value with
        | Done v =>
          let s' := store s item v in
          Return (ValidateStructField s' item) (PtrTo s')
        | Failed err => Return (Some err) t
        | Panicked v => Panic (PtrTo (store s item v))
        end
      end
    end
  | _ => Return (Some PointerRequired) t
  end.

(** The loop of [SetStructDefaults] over the field names. *)
Fixpoint SetStructDefaults_loop (env : environment) (t : target)
         (fields : list string) : outcome :=
  match fields with
  | [] => Return None t
  | field :: fields' =>
    let confkey :=
      match reflections.GetFieldTag t field "confkey" with
      | inl v => v
      | inr _ => EmptyString
      end in
    let deflt :=
      match reflections.GetFieldTag t field "default" with
      | inl v => v
      | inr _ => EmptyString
      end in
    if negb (String.eqb confkey "") && negb (String.eqb deflt "") then
      match SetStructFieldWithKey env t confkey (Str deflt) with
      | Return None t' => SetStructDefaults_loop env t' fields'
      | Return (Some err) t' => Return (Some err) t'
      | Panic t' => Panic t'
      end
    else SetStructDefaults_loop env t fields'
  end.

(** SetStructDefaults extract defaults out of the tags and set them to the
    key *)
Definition SetStructDefaults (env : environment) (t : target) : outcome :=
  match t with
  | PtrTo _ =>
    match reflections.Fields t with
    | inr err => Return (Some err) t
    | inl fields => SetStructDefaults_loop env t fields
    end
  | _ => Return (Some PointerRequired) t
  end.

End Binder.

(** ** A sample configuration structure

    The structure of the package documentation, with a field for each
    further kind the package converts. *)

Definition Config : structure :=
  [ mkField "Loglevel"
      [("confkey", "loglevel"); ("default", "warn");
       ("validate", "enum=debug,info,warn,error")] (VString "");
    mkField "Mode"
      [("confkey", "mode"); ("default", "server");
       ("validate", "enum=server,client")] (VString "");
    mkField "Servers"
      [("confkey", "servers"); ("type", "comma_split");
       ("environment", "SERVERS")] (VStrings []);
    mkField "Path"
      [("confkey", "path"); ("type", "path_split");
       ("default", "/bin:/usr/bin")] (VStrings []);
    mkField "I"
      [("confkey", "interval"); ("type", "duration"); ("default", "1h")]
      (VDuration 0);
    mkField "Libdir"
      [("confkey", "libdir"); ("type", "colon_split")] (VStrings []);
    mkField "Tags" [("confkey", "tags")] (VStrings []);
    mkField "Daemonize" [("confkey", "daemonize")] (VBool true);
    mkField "Identity"
      [("confkey", "identity"); ("type", "title_string")] (VString "node");
    mkField "Port" [("confkey", "port")] (VInt 0);
    mkField "Size" [("confkey", "size")] (VInt64 7) ].

(** A validator that accepts every field, an upper-case table that maps
    every rune above ASCII to itself, and the path list separator of
    Unix. *)
Definition accept_all : structure -> string -> option error := fun _ _ => None.
Definition no_case_table : Z -> Z := fun r => r.
Definition unix_separator : ascii := ":"%char.

(** An environment in which only [SERVERS] is set. *)
Definition servers_env : environment :=
  fun k => if String.eqb k "SERVERS" then Some "a.example, b.example" else None.

(** ** Notions used to state the properties *)

(** The fields of a target; a value that is no structure has none. *)
Definition fields_of (t : target) : structure :=
  match reflections.structure_of t with
  | Some s => s
  | None => []
  end.

(** The field that [key] selects in [t]: the one [fieldWithKey] names. *)
Definition field_for (t : target) (key : string) : option StructField :=
  match fieldWithKey t key with
  | inl item => FieldByName (fields_of t) item
  | inr _ => None
  end.

(** An accessor for kind [k] misses on [key]: no field declares the key, or
    the field the key selects is of another kind. *)
Definition misses (t : target) (key : string) (k : reflect.Kind) : Prop :=
  (forall f, In f (fields_of t) -> Get (Tag f) "confkey" <> key)
  \/ (exists f, field_for t key = Some f /\ kind_of (Val f) <> k).

Definition is_pointer (t : target) : bool :=
  match t with
  | PtrTo _ => true
  | _ => false
  end.

(** The target as a mutating call leaves it. *)
Definition after (o : outcome) : target :=
  match o with
  | Return _ t => t
  | Panic t => t
  end.

(** The number of bytes of [s] equal to [c]. *)
Fixpoint occurrences (c : ascii) (s : string) : nat :=
  match s with
  | EmptyString => O
  | String c' s' =>
    if Ascii.eqb c' c then S (occurrences c s') else occurrences c s'
  end.

(** [strings.Join(elems, sep)] for a separator of one byte. *)
Fixpoint Join (elems : list string) (sep : ascii) : string :=
  match elems with
  | [] => EmptyString
  | e :: rest =>
    match rest with
    | [] => e
    | _ => e ++ String sep (Join rest sep)
    end
  end.

(** The number a string of decimal digits denotes. *)
Fixpoint decimal_from (acc : Z) (s : string) : Z :=
  match s with
  | EmptyString => acc
  | String c s' => decimal_from (acc * 10 + (byte c - 48)) s'
  end.

Definition decimal (s : string) : Z := decimal_from 0 s.

(** What no call changes in a structure: the names and the tags of its
    fields, in declaration order. *)
Definition shape (s : structure) : list (string * list (string * string)) :=
  map (fun f => (Name f, Tag f)) s.

(** Every key that is not empty is declared by one field only. *)
Definition keys_unique (s : structure) : Prop :=
  forall f g,
    In f s -> In g s ->
    Get (Tag f) "confkey" = Get (Tag g) "confkey" ->
    Get (Tag f) "confkey" <> "" ->
    Name f = Name g.

(** The field takes part in the defaults pass: it declares a key and a
    default, neither empty. *)
Definition has_default (f : StructField) : bool :=
  negb (String.eqb (Get (Tag f) "confkey") "")
  && negb (String.eqb (Get (Tag f) "default") "").

(** Strings of ASCII bytes and their lower-case form. *)
Fixpoint is_ascii (s : string) : bool :=
  match s with
  | EmptyString => true
  | String c s' => (byte c <? 128) && is_ascii s'
  end.

Definition lower_char (c : ascii) : ascii :=
  if (65 <=? byte c) && (byte c <=? 90) then chr (byte c + 32) else c.

Definition upper_char (c : ascii) : ascii :=
  if (97 <=? byte c) && (byte c <=? 122) then chr (byte c - 32) else c.

Fixpoint lower (s : string) : string :=
  match s with
  | EmptyString => EmptyString
  | String c s' => String (lower_char c) (lower s')
  end.

(** The string holds no upper-case letter. *)
Fixpoint no_upper (w : string) : bool :=
  match w with
  | EmptyString => true
  | String p w' => negb ((65 <=? byte p) && (byte p <=? 90)) && no_upper w'
  end.

(** Membership in a list of words. *)
Definition among (words : list string) (s : string) : bool :=
  existsb (String.eqb s) words.

(** ** Properties of the binder *)

Section Properties.

Variable To_UpperCase : Z -> Z.
Variable PathListSeparator : ascii.
Variable ValidateStructField : structure -> string -> option error.

Local Abbreviation SetField :=
  (SetStructFieldWithKey To_UpperCase PathListSeparator ValidateStructField).
Local Abbreviation SetDefaults :=
  (SetStructDefaults To_UpperCase PathListSeparator ValidateStructField).
Local Abbreviation conv := (convert To_UpperCase PathListSeparator).
Local Abbreviation V := ValidateStructField.

(** *** Structures, tags and lookup *)

Lemma FieldByName_name (s : structure) (item : string) (f : StructField) :
  FieldByName s item = Some f -> Name f = item.
Proof.
  induction s as [|g s IH]; simpl; [discriminate|].
  destruct (String.eqb (Name g) item) eqn:E; [|exact IH].
  intros [= <-]. now apply String.eqb_eq.
Qed.

Lemma FieldByName_In (s : structure) (item : string) (f : StructField) :
  FieldByName s item = Some f -> In f s.
Proof.
  induction s as [|g s IH]; simpl; [discriminate|].
  destruct (String.eqb (Name g) item); [intros [= <-]; now left|].
  intros H. right. now apply IH.
Qed.

Lemma FieldByName_of_names (s : structure) (item : string) :
  In item (map Name s) -> exists f, FieldByName s item = Some f.
Proof.
  induction s as [|g s IH]; simpl; [tauto|].
  intros [E|H].
  - rewrite E, String.eqb_refl. now exists g.
  - destruct (String.eqb (Name g) item); [now exists g|now apply IH].
Qed.

(** Writing back the value a field already holds changes nothing. *)
Lemma store_same (s : structure) (item : string) (f : StructField) :
  FieldByName s item = Some f -> store s item (Val f) = s.
Proof.
  induction s as [|g s IH]; simpl; [discriminate|].
  destruct (String.eqb (Name g) item).
  - intros [= <-]. now destruct g.
  - intros H. now rewrite IH.
Qed.

(** A second write to a field replaces the first. *)
Lemma store_store (s : structure) (item : string) (v w : value) :
  store (store s item v) item w = store s item w.
Proof.
  induction s as [|g s IH]; simpl; [reflexivity|].
  destruct (String.eqb (Name g) item) eqn:E; simpl; rewrite E.
  - reflexivity.
  - now rewrite IH.
Qed.

Lemma store_names (s : structure) (item : string) (v : value) :
  map Name (store s item v) = map Name s.
Proof.
  induction s as [|g s IH]; simpl; [reflexivity|].
  destruct (String.eqb (Name g) item); simpl; [reflexivity|now rewrite IH].
Qed.

(** After a write, the written field holds the value and keeps its name and
    tag; every other field is as before. *)
Lemma FieldByName_store (s : structure) (item n : string) (v : value) :
  FieldByName (store s item v) n =
  if String.eqb n item
  then option_map (fun f => mkField (Name f) (Tag f) v) (FieldByName s n)
  else FieldByName s n.
Proof.
  induction s as [|g s IH]; simpl.
  - now destruct (String.eqb n item).
  - destruct (String.eqb (Name g) item) eqn:E; simpl.
    + destruct (String.eqb (Name g) n) eqn:E'.
      * apply String.eqb_eq in E, E'. subst.
        now rewrite String.eqb_refl.
      * destruct (String.eqb n item) eqn:E''; [|reflexivity].
        apply String.eqb_eq in E, E''. subst.
        now rewrite String.eqb_refl in E'.
    + destruct (String.eqb (Name g) n) eqn:E'.
      * apply String.eqb_eq in E'. subst. now rewrite E.
      * exact IH.
Qed.

(** A write leaves every tag as it is. *)
Lemma tag_store (s : structure) (item n k : string) (v : value) :
  tag (PtrTo (store s item v)) n k = tag (PtrTo s) n k.
Proof.
  unfold tag, reflections.GetFieldTag, reflections.lookup. simpl.
  rewrite FieldByName_store.
  destruct (String.eqb n item); [|reflexivity].
  now destruct (FieldByName s n).
Qed.

(** [tag] on a field that exists: the declared value, or the empty string
    for a key the field does not declare; the flag is true either way. *)
Lemma tag_of_field (s : structure) (item k : string) (f : StructField) :
  FieldByName s item = Some f -> tag (PtrTo s) item k = (Get (Tag f) k, true).
Proof.
  intros H. unfold tag, reflections.GetFieldTag, reflections.lookup. simpl.
  now rewrite H.
Qed.

Lemma fieldWithKey_loop_store (s : structure) (item key : string) (v : value)
      (names : list string) :
  fieldWithKey_loop (PtrTo (store s item v)) names key =
  fieldWithKey_loop (PtrTo s) names key.
Proof.
  induction names as [|n names IH]; simpl; [reflexivity|].
  now rewrite tag_store, IH.
Qed.

(** A write does not change which field a key selects. *)
Lemma fieldWithKey_store (s : structure) (item key : string) (v : value) :
  fieldWithKey (PtrTo (store s item v)) key = fieldWithKey (PtrTo s) key.
Proof.
  unfold fieldWithKey. simpl.
  now rewrite store_names, fieldWithKey_loop_store.
Qed.

Lemma fieldWithKey_loop_In (t : target) (names : list string)
      (key item : string) :
  fieldWithKey_loop t names key = inl item -> In item names.
Proof.
  induction names as [|n names IH]; simpl; [discriminate|].
  destruct (tag t n "confkey") as [c ok].
  destruct (String.eqb c key); [intros [= <-]; now left|].
  intros H. right. now apply IH.
Qed.

(** The field a key selects is the one [fieldWithKey] names. *)
Lemma field_for_inv (s : structure) (key : string) (f : StructField) :
  field_for (PtrTo s) key = Some f ->
  fieldWithKey (PtrTo s) key = inl (Name f)
  /\ FieldByName s (Name f) = Some f.
Proof.
  unfold field_for. simpl.
  destruct (fieldWithKey (PtrTo s) key) as [item|e] eqn:E; [|discriminate].
  intros H. pose proof (FieldByName_name _ _ _ H) as N. subst item.
  now split.
Qed.

(** When no field declares the key, [fieldWithKey] fails. *)
Lemma fieldWithKey_loop_none (t : target) (names : list string) (key : string) :
  (forall f, In f (fields_of t) -> Get (Tag f) "confkey" <> key) ->
  key <> "" \/ (forall n, In n names -> In n (map Name (fields_of t))) ->
  fieldWithKey_loop t names key = inr (NoFieldWithConfkey key).
Proof.
  intros Hno. induction names as [|n names IH]; simpl; [reflexivity|].
  intros Hk. unfold tag, reflections.GetFieldTag, reflections.lookup.
  unfold fields_of in *.
  destruct (reflections.structure_of t) as [s|] eqn:Es.
  - destruct (FieldByName s n) as [f|] eqn:Ef.
    + destruct (String.eqb (Get (Tag f) "confkey") key) eqn:E.
      * apply String.eqb_eq in E. exfalso.
        apply (Hno f); [now apply FieldByName_In with n|exact E].
      * apply IH. destruct Hk as [Hk|Hk]; [now left|right].
        intros m Hm. apply Hk. now right.
    + destruct Hk as [Hk|Hk].
      * destruct (String.eqb "" key) eqn:E.
        -- apply String.eqb_eq in E. now subst.
        -- apply IH. now left.
      * exfalso. destruct (FieldByName_of_names s n) as [f Hf].
        -- apply Hk. now left.
        -- congruence.
  - destruct Hk as [Hk|Hk].
    + destruct (String.eqb "" key) eqn:E.
      * apply String.eqb_eq in E. now subst.
      * apply IH. now left.
    + exfalso. apply (Hk n). now left.
Qed.

Lemma fieldWithKey_none (t : target) (key : string) :
  (forall f, In f (fields_of t) -> Get (Tag f) "confkey" <> key) ->
  fieldWithKey t key = inr (NoFieldWithConfkey key).
Proof.
  intros Hno. unfold fieldWithKey, reflections.Fields.
  destruct (reflections.structure_of t) as [s|] eqn:Es; [|reflexivity].
  apply fieldWithKey_loop_none; [exact Hno|].
  right. unfold fields_of. now rewrite Es.
Qed.

(** *** The library functions *)

(** [Split] yields one part more than there are separators: empty parts are
    kept. *)
Lemma Split_length s sep :
  List.length (strings.Split s sep) = S (occurrences sep s).
Proof.
  induction s as [|c s IH]; simpl; [reflexivity|].
  destruct (Ascii.eqb c sep); simpl; [now rewrite IH|].
  destruct (strings.Split s sep); simpl in *; [discriminate|exact IH].
Qed.

(** The parts of [Split] joined by the separator give the string back. *)
Lemma Split_Join s sep : Join (strings.Split s sep) sep = s.
Proof.
  induction s as [|c s IH]; [reflexivity|].
  pose proof (Split_length s sep) as L.
  cbn [strings.Split]. destruct (Ascii.eqb_spec c sep) as [->|N].
  - destruct (strings.Split s sep) as [|h t]; [discriminate|].
    cbn [Join] in *. now rewrite IH.
  - destruct (strings.Split s sep) as [|h t]; [discriminate|].
    cbn [Join] in *. destruct t; simpl; now rewrite <- IH.
Qed.

(** No part of [Split] holds the separator. *)
Lemma Split_parts s sep :
  Forall (fun part => occurrences sep part = O) (strings.Split s sep).
Proof.
  induction s as [|c s IH]; simpl; [now repeat constructor|].
  pose proof (Split_length s sep) as L.
  destruct (Ascii.eqb c sep) eqn:E; [now constructor|].
  destruct (strings.Split s sep) as [|h t]; [discriminate|].
  inversion IH; subst. constructor; [|assumption].
  simpl. now rewrite E.
Qed.

Lemma leadingInt_len s :
  forall x v rest,
    time.leadingInt x s = Some (v, rest) -> (len rest <= len s)%nat.
Proof.
  induction s as [|c s IH]; intros x v rest; cbn [time.leadingInt].
  - now intros [= _ <-].
  - destruct (negb (isDigit c)); [now intros [= _ <-]|].
    destruct (x >? 2 ^ 63 / 10); [discriminate|].
    destruct (x * 10 + (byte c - 48) >? 2 ^ 63); [discriminate|].
    intros H. apply IH in H. simpl. lia.
Qed.

Lemma leadingFraction_len s :
  forall x scale o f sc rest,
    time.leadingFraction x scale o s = (f, sc, rest) ->
    (len rest <= len s)%nat.
Proof.
  induction s as [|c s IH]; intros x scale o f sc rest;
    cbn [time.leadingFraction].
  - now intros [= _ _ <-].
  - destruct (negb (isDigit c)); [now intros [= _ _ <-]|].
    assert (forall a b c', time.leadingFraction a b c' s = (f, sc, rest) ->
                           (len rest <= len (String c s))%nat)
      by (intros a b c' H; apply IH in H; simpl; lia).
    destruct o; [now eauto|].
    destruct (x >? (2 ^ 63 - 1) / 10); [now eauto|].
    destruct (x * 10 + (byte c - 48) >? 2 ^ 63); now eauto.
Qed.

Lemma unit_span_len s :
  forall u rest, time.unit_span s = (u, rest) -> (len u + len rest = len s)%nat.
Proof.
  induction s as [|c s IH]; intros u rest; cbn [time.unit_span].
  - now intros [= <- <-].
  - destruct (Ascii.eqb c "." || isDigit c); [now intros [= <- <-]|].
    destruct (time.unit_span s) as [u' rest'].
    intros [= <- <-]. specialize (IH u' rest' eq_refl). simpl in *. lia.
Qed.

(** The iteration bound of the loop of [ParseDuration] is never reached:
    every bound of at least [len s] gives the same result. *)
Lemma ParseDuration_loop_bound n :
  forall m orig s d,
    (len s <= n)%nat -> (len s <= m)%nat ->
    time.ParseDuration_loop n orig s d = time.ParseDuration_loop m orig s d.
Proof.
  induction n as [|n IH]; intros m orig s d Hn Hm; destruct s as [|c0 s];
    destruct m as [|m]; try reflexivity; simpl in Hn, Hm; try lia.
  cbn [time.ParseDuration_loop].
  repeat
    match goal with
    | |- ?x = ?x => reflexivity
    | |- context [match ?x with _ => _ end] =>
      lazymatch x with
      | context [match _ with _ => _ end] => fail
      | _ => destruct x eqn:?
      end
    end.
  all: apply IH;
    repeat
      match goal with
      | H : time.leadingInt _ _ = Some _ |- _ => apply leadingInt_len in H
      | H : time.leadingFraction _ _ _ _ = _ |- _ =>
        apply leadingFraction_len in H
      | H : time.unit_span _ = _ |- _ => apply unit_span_len in H
      | H : (_ =? _)%nat = false |- _ => apply Nat.eqb_neq in H
      end;
    simpl in *; lia.
Qed.

Lemma take_len s : forall i, (i <= len s)%nat -> len (take i s) = i.
Proof.
  induction s as [|c s IH]; intros [|i]; simpl; try reflexivity; try lia.
  intros H. rewrite IH; lia.
Qed.

Lemma scan_back_le n :
  forall s start lim, utf8.scan_back n s start lim <= start.
Proof.
  induction n as [|n IH]; intros s start lim; simpl; [lia|].
  destruct (start <? lim); [lia|].
  destruct (utf8.RuneStart (at_ s (Z.to_nat start))); [lia|].
  specialize (IH s (start - 1) lim). lia.
Qed.

(** The last rune of a string that is not empty has at least one byte. *)
Lemma DecodeLastRuneInString_size s :
  (0 < len s)%nat -> (1 <= snd (utf8.DecodeLastRuneInString s))%nat.
Proof.
  intros H. unfold utf8.DecodeLastRuneInString.
  destruct (Z.eqb_spec (Z.of_nat (len s)) 0); [lia|].
  destruct (at_ s (Z.to_nat (Z.of_nat (len s) - 1)) <? utf8.RuneSelf);
    [simpl; lia|].
  match goal with
  | |- context [utf8.scan_back ?a ?b ?c ?d] =>
    pose proof (scan_back_le a b c d) as L; set (k := utf8.scan_back a b c d) in *
  end.
  destruct (utf8.DecodeRuneInString (drop (Z.to_nat (Z.max 0 k)) s))
    as [r size].
  destruct (Z.eqb_spec (Z.max 0 k + Z.of_nat size) (Z.of_nat (len s)));
    simpl; lia.
Qed.

(** The iteration bound of [lastIndexFunc] is never reached: every bound
    above the index gives the same result. *)
Lemma lastIndexFunc_loop_bound n :
  forall m s f i,
    (i < n)%nat -> (i < m)%nat -> (i <= len s)%nat ->
    strings.lastIndexFunc_loop n s f i = strings.lastIndexFunc_loop m s f i.
Proof.
  induction n as [|n IH]; intros m s f i Hn Hm Hi; [lia|].
  destruct m as [|m]; [lia|]. cbn [strings.lastIndexFunc_loop].
  destruct (Nat.eqb_spec i 0); [reflexivity|].
  pose proof (DecodeLastRuneInString_size (take i s)) as D.
  rewrite take_len in D by exact Hi.
  destruct (utf8.DecodeLastRuneInString (take i s)) as [r size].
  simpl in D. destruct (negb (f r)); [reflexivity|].
  apply IH; lia.
Qed.

(** *** The call on a selected field *)

(** On a pointer target in which [key] selects the field [f], the call is
    the conversion on [f] followed by the validation of that field. *)
Lemma SetStructFieldWithKey_selected env s key f value :
  field_for (PtrTo s) key = Some f ->
  SetField env (PtrTo s) key value =
  match conv (PtrTo s) (Name f) f (override env (PtrTo s) (Name f) value) with
  | Done v =>
    Return (V (store s (Name f) v) (Name f)) (PtrTo (store s (Name f) v))
  | Failed err => Return (Some err) (PtrTo s)
  | Panicked v => Panic (PtrTo (store s (Name f) v))
  end.
Proof.
  intros H. apply field_for_inv in H as [H1 H2].
  unfold SetStructFieldWithKey. now rewrite H1, H2.
Qed.

(** The value the conversion works with: the variable named by the tag
    [environment] when it is set, the supplied value otherwise. *)
Lemma override_of_field env s f value :
  FieldByName s (Name f) = Some f ->
  override env (PtrTo s) (Name f) value =
  match LookupEnv env (Get (Tag f) "environment") with
  | Some v => Str v
  | None => value
  end.
Proof.
  intros H. unfold override. now rewrite (tag_of_field _ _ _ _ H).
Qed.

Lemma override_no_environment t item value :
  override no_environment t item value = value.
Proof.
  unfold override. destruct (tag t item "environment") as [tg [|]];
    [|reflexivity].
  unfold LookupEnv, no_environment. now destruct (String.eqb tg "").
Qed.

Lemma override_store env s item n v value :
  override env (PtrTo (store s item v)) n value = override env (PtrTo s) n value.
Proof. unfold override. now rewrite tag_store. Qed.

(** A write does not change which field a key selects; the selected field
    keeps its name and tag and holds the written value. *)
Lemma field_for_store s key f v :
  field_for (PtrTo s) key = Some f ->
  field_for (PtrTo (store s (Name f) v)) key =
  Some (mkField (Name f) (Tag f) v).
Proof.
  intros H. apply field_for_inv in H as [H1 H2].
  unfold field_for. rewrite fieldWithKey_store, H1.
  change (fields_of (PtrTo (store s (Name f) v))) with (store s (Name f) v).
  now rewrite FieldByName_store, String.eqb_refl, H2.
Qed.

(** C9: on a target that is not a pointer, [SetStructFieldWithKey] and
    [SetStructDefaults] return the error "pointer is required" and leave the
    target as it was. *)
Theorem non_pointer_target_rejected env t key value :
  is_pointer t = false ->
  SetField env t key value = Return (Some PointerRequired) t
  /\ SetDefaults env t = Return (Some PointerRequired) t.
Proof.
  destruct t as [s|s|]; simpl; intros H; try discriminate; now split.
Qed.

(** C10: on a field of kind [Int64] whose tag [type] is not [duration],
    [SetStructFieldWithKey] ignores the value it is given, whatever it is:
    the structure is left unchanged and the error returned is the result of
    the validation of the field, so no conversion error arises. *)
Theorem int64_without_duration_ignored env s key f value :
  field_for (PtrTo s) key = Some f ->
  kind_of (Val f) = reflect.Int64 ->
  Get (Tag f) "type" <> "duration" ->
  SetField env (PtrTo s) key value = Return (V s (Name f)) (PtrTo s).
Proof.
  intros Hf Hk Ht.
  rewrite (SetStructFieldWithKey_selected _ _ _ _ _ Hf).
  apply field_for_inv in Hf as [_ Hf].
  unfold convert. rewrite Hk, (tag_of_field _ _ _ _ Hf). simpl.
  apply String.eqb_neq in Ht. rewrite Ht.
  now rewrite (store_same _ _ _ Hf).
Qed.

(** A field of type [[]string] whose tag [type] is none of the three split
    modes, in particular one without the tag, is left as it is: [tag]
    reports every existing field as tagged, so the branch that appends the
    trimmed value is never taken. *)
Lemma sequence_without_split_mode_unchanged env s key f old value :
  field_for (PtrTo s) key = Some f ->
  Val f = VStrings old ->
  Get (Tag f) "type" <> "comma_split" ->
  Get (Tag f) "type" <> "colon_split" ->
  Get (Tag f) "type" <> "path_split" ->
  SetField env (PtrTo s) key value = Return (V s (Name f)) (PtrTo s).
Proof.
  intros Hf Hv H1 H2 H3.
  rewrite (SetStructFieldWithKey_selected _ _ _ _ _ Hf).
  apply field_for_inv in Hf as [_ Hf].
  unfold convert. rewrite Hv, (tag_of_field _ _ _ _ Hf). simpl.
  apply String.eqb_neq in H1, H2, H3. rewrite H1, H2, H3, <- Hv.
  now rewrite (store_same _ _ _ Hf).
Qed.

(** C2: the field [Tags []string] of the sample structure declares no tag
    [type]; setting it to [" x "] returns the result of the validation and
    leaves the field empty, where the claim expects the element ["x"]. *)
Theorem plain_sequence_field_not_appended env :
  SetField env (PtrTo Config) "tags" (Str " x ")
  = Return (V Config "Tags") (PtrTo Config)
  /\ StringListWithKey
       (after (SetField env (PtrTo Config) "tags" (Str " x "))) "tags" = [].
Proof.
  assert (E : SetField env (PtrTo Config) "tags" (Str " x ")
              = Return (V Config "Tags") (PtrTo Config)).
  { apply (sequence_without_split_mode_unchanged env Config "tags"
             (mkField "Tags" [("confkey", "tags")] (VStrings [])) []);
      try reflexivity; simpl; discriminate. }
  split; [exact E|]. now rewrite E.
Qed.

(** On a field of type [bool], a string that [strToBool] does not recognise
    is stored as [false]; the error of [strToBool] is dropped and the call
    returns the result of the validation. *)
Lemma bool_unrecognised_stored_false env s key f old value raw e :
  field_for (PtrTo s) key = Some f ->
  Val f = VBool old ->
  override env (PtrTo s) (Name f) value = Str raw ->
  strToBool raw = (false, Some e) ->
  SetField env (PtrTo s) key value =
  Return (V (store s (Name f) (VBool false)) (Name f))
         (PtrTo (store s (Name f) (VBool false))).
Proof.
  intros Hf Hv Ho Hb.
  rewrite (SetStructFieldWithKey_selected _ _ _ _ _ Hf).
  unfold convert. now rewrite Hv, Ho, Hb.
Qed.

(** C1: the field [Daemonize bool] of the sample structure holds [true];
    setting it to ["maybe"] returns the result of the validation, not a
    conversion error, and the field then holds [false], not its prior
    value. *)
Theorem bool_maybe_overwrites_without_error env :
  BoolWithKey (PtrTo Config) "daemonize" = true
  /\ strToBool "maybe" = (false, Some (CannotConvertBool "maybe"))
  /\ SetField env (PtrTo Config) "daemonize" (Str "maybe")
     = Return (V (store Config "Daemonize" (VBool false)) "Daemonize")
              (PtrTo (store Config "Daemonize" (VBool false)))
  /\ BoolWithKey
       (after (SetField env (PtrTo Config) "daemonize" (Str "maybe")))
       "daemonize" = false.
Proof.
  assert (E : SetField env (PtrTo Config) "daemonize" (Str "maybe")
     = Return (V (store Config "Daemonize" (VBool false)) "Daemonize")
              (PtrTo (store Config "Daemonize" (VBool false)))).
  { apply (bool_unrecognised_stored_false env Config "daemonize"
             (mkField "Daemonize" [("confkey", "daemonize")] (VBool true))
             true (Str "maybe") "maybe" (CannotConvertBool "maybe"));
      reflexivity. }
  split; [reflexivity|]. split; [reflexivity|]. split; [exact E|].
  now rewrite E.
Qed.

(** A string that is not empty has a first rune. *)
Lemma runes_of_string_cons c raw :
  exists a0 a, runes_of_string (String c raw) = a0 :: a.
Proof.
  unfold runes_of_string. cbn [runes_from].
  destruct (utf8.DecodeRuneInString (String c raw)) as [r size].
  now exists r, (runes_from (Nat.pred size) raw).
Qed.

(** On a field of type [string] with the tag [type:"title_string"], a
    string that is not empty is stored with its first rune upper-cased and
    the call returns. *)
Lemma title_string_nonempty env s key f old value c raw :
  field_for (PtrTo s) key = Some f ->
  Val f = VString old ->
  Get (Tag f) "type" = "title_string" ->
  override env (PtrTo s) (Name f) value = Str (String c raw) ->
  exists a0 a,
    runes_of_string (String c raw) = a0 :: a
    /\ SetField env (PtrTo s) key value =
       let v := VString (string_of_runes
                           (unicode.ToUpper To_UpperCase a0 :: a)) in
       Return (V (store s (Name f) v) (Name f)) (PtrTo (store s (Name f) v)).
Proof.
  intros Hf Hv Ht Ho.
  rewrite (SetStructFieldWithKey_selected _ _ _ _ _ Hf).
  apply field_for_inv in Hf as [_ Hf].
  destruct (runes_of_string_cons c raw) as (a0 & a & Ha).
  exists a0, a. split; [exact Ha|].
  unfold convert. rewrite Hv, Ho, (tag_of_field _ _ _ _ Hf), Ht.
  cbn [kind_of andb String.eqb Ascii.eqb Bool.eqb]. now rewrite Ha.
Qed.

(** C3: the field [Identity string] of the sample structure has the tag
    [type:"title_string"]; setting it to the empty string panics at the
    index [a[0]] of the empty rune slice, after the empty string has been
    stored, where the claim expects a normal return. *)
Theorem title_string_empty_panics env :
  SetField env (PtrTo Config) "identity" (Str "")
  = Panic (PtrTo (store Config "Identity" (VString ""))).
Proof. reflexivity. Qed.

(** The appending loop adds the trimmed values in order. *)
Lemma append_trimmed_app ptr vals :
  append_trimmed ptr vals = (ptr ++ map strings.TrimSpace vals)%list.
Proof.
  revert ptr. induction vals as [|v vals IH]; intros ptr; simpl.
  - now rewrite app_nil_r.
  - now rewrite IH, <- app_assoc.
Qed.

(** The accessors see the value and the kind of the selected field. *)
Lemma getFieldValAndKind_selected t key f :
  field_for t key = Some f ->
  getFieldValAndKind t key = inl (Val f, kind_of (Val f)).
Proof.
  unfold field_for, getFieldValAndKind, fields_of.
  destruct (fieldWithKey t key) as [item|e]; [|discriminate].
  unfold reflections.GetField, reflections.GetFieldKind, reflections.lookup.
  destruct (reflections.structure_of t) as [s|]; [|discriminate].
  now intros ->.
Qed.

Lemma StringListWithKey_stored s key f l :
  field_for (PtrTo s) key = Some f ->
  StringListWithKey (PtrTo (store s (Name f) (VStrings l))) key = l.
Proof.
  intros Hf. unfold StringListWithKey.
  now rewrite (getFieldValAndKind_selected _ _ _ (field_for_store _ _ _ _ Hf)).
Qed.

(** One call on a field of type [[]string] with [type:"comma_split"]. *)
Lemma comma_split_call env s key f old value raw :
  field_for (PtrTo s) key = Some f ->
  Val f = VStrings old ->
  Get (Tag f) "type" = "comma_split" ->
  override env (PtrTo s) (Name f) value = Str raw ->
  SetField env (PtrTo s) key value =
  let s' := store s (Name f)
              (VStrings (map strings.TrimSpace (strings.Split raw ","))) in
  Return (V s' (Name f)) (PtrTo s').
Proof.
  intros Hf Hv Ht Ho.
  rewrite (SetStructFieldWithKey_selected _ _ _ _ _ Hf).
  apply field_for_inv in Hf as [_ Hf].
  unfold convert. rewrite Hv, Ho, (tag_of_field _ _ _ _ Hf), Ht.
  cbn [kind_of String.eqb Ascii.eqb Bool.eqb].
  now rewrite append_trimmed_app.
Qed.

(** One call on a field of type [[]string] with [type:"colon_split"]. *)
Lemma colon_split_call env s key f old value raw :
  field_for (PtrTo s) key = Some f ->
  Val f = VStrings old ->
  Get (Tag f) "type" = "colon_split" ->
  override env (PtrTo s) (Name f) value = Str raw ->
  SetField env (PtrTo s) key value =
  let s' := store s (Name f)
              (VStrings (old ++ map strings.TrimSpace (strings.Split raw ":"))) in
  Return (V s' (Name f)) (PtrTo s').
Proof.
  intros Hf Hv Ht Ho.
  rewrite (SetStructFieldWithKey_selected _ _ _ _ _ Hf).
  apply field_for_inv in Hf as [_ Hf].
  unfold convert. rewrite Hv, Ho, (tag_of_field _ _ _ _ Hf), Ht.
  cbn [kind_of String.eqb Ascii.eqb Bool.eqb].
  now rewrite append_trimmed_app.
Qed.

(** C5: on a field of type [[]string] with [type:"comma_split"], where [raw]
    is the string the call works with (the supplied value, or the field's
    environment variable when set), the call stores exactly the parts of
    [raw] between the commas, each trimmed, whatever the field held; there
    is one part more than there are commas, so empty parts are kept; a
    second call stores the parts of its own string only; and the parts of
    ["a, b ,c"] are ["a"], ["b"], ["c"]. *)
Theorem comma_split_replaces_contents env s key f old value raw :
  field_for (PtrTo s) key = Some f ->
  Val f = VStrings old ->
  Get (Tag f) "type" = "comma_split" ->
  override env (PtrTo s) (Name f) value = Str raw ->
  let parts := map strings.TrimSpace (strings.Split raw ",") in
  let s' := store s (Name f) (VStrings parts) in
  SetField env (PtrTo s) key value = Return (V s' (Name f)) (PtrTo s')
  /\ StringListWithKey (PtrTo s') key = parts
  /\ List.length parts = S (occurrences "," raw)
  /\ (forall value2 raw2,
        override env (PtrTo s) (Name f) value2 = Str raw2 ->
        StringListWithKey (after (SetField env (PtrTo s') key value2)) key
        = map strings.TrimSpace (strings.Split raw2 ","))
  /\ map strings.TrimSpace (strings.Split "a, b ,c" ",") = ["a"; "b"; "c"].
Proof.
  intros Hf Hv Ht Ho parts s'.
  split; [exact (comma_split_call _ _ _ _ _ _ _ Hf Hv Ht Ho)|].
  split; [exact (StringListWithKey_stored _ _ _ _ Hf)|].
  split; [unfold parts; now rewrite length_map, Split_length|].
  split; [|reflexivity].
  intros value2 raw2 Ho2. unfold s'.
  rewrite (comma_split_call env _ key _ parts value2 raw2
             (field_for_store _ _ _ _ Hf) eq_refl Ht).
  - cbn [after Name]. rewrite store_store.
    exact (StringListWithKey_stored _ _ _ _ Hf).
  - cbn [Name]. now rewrite override_store.
Qed.

(** C6: on a field of type [[]string] with [type:"colon_split"], where [raw]
    is the string the call works with, the call appends the parts of [raw]
    between the colons, each trimmed, to what the field held; a second call
    appends again; two calls with ["a:b:c"] add six elements, so a field
    that was empty then holds six. *)
Theorem colon_split_appends env s key f old value raw :
  field_for (PtrTo s) key = Some f ->
  Val f = VStrings old ->
  Get (Tag f) "type" = "colon_split" ->
  override env (PtrTo s) (Name f) value = Str raw ->
  let parts := map strings.TrimSpace (strings.Split raw ":") in
  let s' := store s (Name f) (VStrings (old ++ parts)) in
  SetField env (PtrTo s) key value = Return (V s' (Name f)) (PtrTo s')
  /\ StringListWithKey (PtrTo s') key = (old ++ parts)%list
  /\ (forall value2 raw2,
        override env (PtrTo s) (Name f) value2 = Str raw2 ->
        StringListWithKey (after (SetField env (PtrTo s') key value2)) key
        = (old ++ parts ++ map strings.TrimSpace (strings.Split raw2 ":"))%list)
  /\ (raw = "a:b:c" ->
      StringListWithKey (after (SetField env (PtrTo s') key value)) key
      = (old ++ ["a"; "b"; "c"; "a"; "b"; "c"])%list
      /\ (old = [] ->
          List.length (StringListWithKey
                    (after (SetField env (PtrTo s') key value)) key) = 6%nat)).
Proof.
  intros Hf Hv Ht Ho parts s'.
  assert (Twice : forall value2 raw2,
        override env (PtrTo s) (Name f) value2 = Str raw2 ->
        StringListWithKey (after (SetField env (PtrTo s') key value2)) key
        = (old ++ parts ++ map strings.TrimSpace (strings.Split raw2 ":"))%list).
  { intros value2 raw2 Ho2. unfold s'.
    rewrite (colon_split_call env _ key _ (old ++ parts) value2 raw2
               (field_for_store _ _ _ _ Hf) eq_refl Ht).
    - cbn [after Name]. rewrite store_store, <- app_assoc.
      exact (StringListWithKey_stored _ _ _ _ Hf).
    - cbn [Name]. now rewrite override_store. }
  split; [exact (colon_split_call _ _ _ _ _ _ _ Hf Hv Ht Ho)|].
  split; [exact (StringListWithKey_stored _ _ _ _ Hf)|].
  split; [exact Twice|].
  intros ->. rewrite (Twice value "a:b:c" Ho).
  split; [reflexivity|]. now intros ->.
Qed.

(** *** Decimal strings and [Atoi] *)

Lemma isDigit_range c : isDigit c = true -> 0 <= byte c - 48 <= 9.
Proof. unfold isDigit. intros H. apply andb_prop in H as [H1 H2]. lia. Qed.

Lemma decimal_from_ge s :
  forall n, regexp.all_digits s = true -> 0 <= n -> n <= decimal_from n s.
Proof.
  induction s as [|c s IH]; simpl; intros n H Hn; [lia|].
  apply andb_prop in H as [Hc Hs]. apply isDigit_range in Hc.
  specialize (IH (n * 10 + (byte c - 48)) Hs). lia.
Qed.

(** On decimal digits [ParseUint] computes the number they denote, or
    reports that it exceeds [uint64]. *)
Lemma ParseUint_loop_digits s :
  forall n, regexp.all_digits s = true -> 0 <= n <= strconv.maxUint64 ->
  strconv.ParseUint_loop n s =
  if decimal_from n s <=? strconv.maxUint64 then inl (decimal_from n s)
  else inr ErrRange.
Proof.
  induction s as [|c s IH]; intros n H Hn.
  - simpl. destruct (Z.leb_spec n strconv.maxUint64); [reflexivity|lia].
  - simpl in H. apply andb_prop in H as [Hc Hs].
    pose proof (isDigit_range c Hc) as Hd.
    pose proof (decimal_from_ge s (n * 10 + (byte c - 48)) Hs) as Hge.
    cbn [strconv.ParseUint_loop decimal_from]. rewrite Hc. cbn [negb].
    change (strconv.maxUint64 / 10 + 1) with 1844674407370955162.
    unfold strconv.maxUint64 in *.
    change (2 ^ 64 - 1) with 18446744073709551615 in *.
    destruct (Z.geb_spec n 1844674407370955162).
    + destruct (Z.leb_spec (decimal_from (n * 10 + (byte c - 48)) s)
                           18446744073709551615); [lia|reflexivity].
    + destruct (Z.gtb_spec (n * 10 + (byte c - 48)) 18446744073709551615).
      * destruct (Z.leb_spec (decimal_from (n * 10 + (byte c - 48)) s)
                             18446744073709551615); [lia|reflexivity].
      * apply IH; [exact Hs|lia].
Qed.

(** On a string of decimal digits [Atoi] returns the number they denote
    when it fits [int], and a range error otherwise. *)
Lemma Atoi_digits raw :
  regexp.Match_digits raw = true ->
  strconv.Atoi raw =
  if decimal raw <? 2 ^ 63 then inl (decimal raw)
  else inr (NumError "Atoi" raw ErrRange).
Proof.
  destruct raw as [|c s]; [discriminate|].
  unfold regexp.Match_digits. intros H.
  pose proof H as H'. simpl in H'. apply andb_prop in H' as [Hc _].
  assert (Em : Ascii.eqb c "-" = false).
  { destruct (Ascii.eqb_spec c "-"); [subst; discriminate|reflexivity]. }
  assert (Ep : Ascii.eqb c "+" = false).
  { destruct (Ascii.eqb_spec c "+"); [subst; discriminate|reflexivity]. }
  unfold strconv.Atoi. rewrite Em, Ep. cbn [orb negb andb].
  unfold strconv.ParseUint.
  rewrite (ParseUint_loop_digits (String c s) 0 H)
    by (unfold strconv.maxUint64; lia).
  fold (decimal (String c s)).
  unfold strconv.maxUint64.
  change (2 ^ 64 - 1) with 18446744073709551615.
  change (2 ^ 63) with 9223372036854775808.
  destruct (Z.leb_spec (decimal (String c s)) 18446744073709551615).
  - destruct (Z.geb_spec (decimal (String c s)) 9223372036854775808);
      destruct (Z.ltb_spec (decimal (String c s)) 9223372036854775808);
      try lia; reflexivity.
  - destruct (Z.ltb_spec (decimal (String c s)) 9223372036854775808);
      [lia|reflexivity].
Qed.

Lemma int64_small z : - 2 ^ 63 <= z < 2 ^ 63 -> time.int64 z = z.
Proof.
  intros H. unfold time.int64. rewrite Z.mod_small; lia.
Qed.

(** Every error of [ParseDuration] is one of its three conversion errors. *)
Lemma ParseDuration_loop_error n :
  forall orig s d e,
    time.ParseDuration_loop n orig s d = inr e -> ConversionError e.
Proof.
  induction n as [|n IH]; intros orig s d e; destruct s as [|c0 s];
    cbn [time.ParseDuration_loop]; try discriminate.
  repeat
    match goal with
    | |- inr _ = inr _ -> _ => intros [= <-]; exact I
    | |- time.ParseDuration_loop _ _ _ _ = inr _ -> _ => apply IH
    | |- context [match ?x with _ => _ end] => destruct x
    end.
Qed.

Lemma ParseDuration_error raw e :
  time.ParseDuration raw = inr e -> ConversionError e.
Proof.
  unfold time.ParseDuration.
  repeat
    match goal with
    | |- inr _ = inr _ -> _ => intros [= <-]; exact I
    | |- inl _ = inr _ -> _ => discriminate
    | H : time.ParseDuration_loop _ _ _ _ = inr _ |- _ =>
      intros [= <-]; exact (ParseDuration_loop_error _ _ _ _ _ H)
    | |- context [match ?x with _ => _ end] => destruct x eqn:?
    end.
Qed.

(** With [type:"duration"] the field has to be of type [time.Duration]: on
    any other field of kind [Int64] the assertion to [*time.Duration]
    panics and nothing is written. *)
Lemma duration_mode_needs_Duration env s key f value :
  field_for (PtrTo s) key = Some f ->
  kind_of (Val f) = reflect.Int64 ->
  (forall d, Val f <> VDuration d) ->
  Get (Tag f) "type" = "duration" ->
  SetField env (PtrTo s) key value = Panic (PtrTo s).
Proof.
  intros Hf Hk Hd Ht.
  rewrite (SetStructFieldWithKey_selected _ _ _ _ _ Hf).
  apply field_for_inv in Hf as [_ Hf].
  unfold convert. rewrite Hk, (tag_of_field _ _ _ _ Hf), Ht.
  cbn [andb String.eqb Ascii.eqb Bool.eqb].
  destruct (Val f) eqn:E; try discriminate;
    try (exfalso; now apply (Hd n));
    rewrite <- E, (store_same _ _ _ Hf); reflexivity.
Qed.

(** X17: on a field of type [time.Duration] with
    [type:"duration"], where [raw] is the string the call works with.  When
    [raw] is all decimal digits and denotes at most 9223372036, the field is
    set to that many seconds; when it denotes 2^63 or more, the call fails
    with the range error of [Atoi] and the field is unchanged.  When [raw]
    is not all digits it is parsed by [time.ParseDuration]: the field is set
    to the duration parsed, or the call fails with the conversion error of
    the parser and the field is unchanged.  So ["3600"] and ["1h"] both give
    3600 seconds and ["bogus"] fails.  In each success the call returns the
    result of the validation. *)
Theorem duration_conversion env s key f old value raw :
  field_for (PtrTo s) key = Some f ->
  Val f = VDuration old ->
  Get (Tag f) "type" = "duration" ->
  override env (PtrTo s) (Name f) value = Str raw ->
  let assigned d :=
    Return (V (store s (Name f) (VDuration d)) (Name f))
           (PtrTo (store s (Name f) (VDuration d))) in
  let failed e := Return (Some e) (PtrTo s) in
  (regexp.Match_digits raw = true ->
   (decimal raw <= 9223372036 ->
    SetField env (PtrTo s) key value = assigned (decimal raw * time.Second))
   /\ (2 ^ 63 <= decimal raw ->
       ConversionError (NumError "Atoi" raw ErrRange)
       /\ SetField env (PtrTo s) key value
          = failed (NumError "Atoi" raw ErrRange)))
  /\ (regexp.Match_digits raw = false ->
      (forall d, time.ParseDuration raw = inl d ->
                 SetField env (PtrTo s) key value = assigned d)
      /\ (forall e, time.ParseDuration raw = inr e ->
                    ConversionError e
                    /\ SetField env (PtrTo s) key value = failed e))
  /\ (raw = "3600" \/ raw = "1h" ->
      SetField env (PtrTo s) key value = assigned (3600 * time.Second))
  /\ (raw = "bogus" ->
      ConversionError (InvalidDuration "bogus")
      /\ SetField env (PtrTo s) key value = failed (InvalidDuration "bogus")).
Proof.
  intros Hf Hv Ht Ho assigned failed.
  assert (E : SetField env (PtrTo s) key value =
              if regexp.Match_digits raw then
                match strconv.Atoi raw with
                | inr err => failed err
                | inl i => assigned (time.int64 (time.Second * i))
                end
              else
                match time.ParseDuration raw with
                | inr err => failed err
                | inl d => assigned d
                end).
  { rewrite (SetStructFieldWithKey_selected _ _ _ _ _ Hf).
    pose proof (field_for_inv _ _ _ Hf) as [_ Hn].
    unfold convert. rewrite Hv, Ho, (tag_of_field _ _ _ _ Hn), Ht.
    cbn [kind_of andb String.eqb Ascii.eqb Bool.eqb].
    destruct (regexp.Match_digits raw).
    - now destruct (strconv.Atoi raw).
    - now destruct (time.ParseDuration raw). }
  rewrite E. clear E.
  split; [|split; [|split]].
  - intros Hd. rewrite Hd, (Atoi_digits raw Hd).
    assert (0 <= decimal raw)
      by (apply (decimal_from_ge raw 0); [now destruct raw|lia]).
    change (2 ^ 63) with 9223372036854775808. split; intros Hr.
    + destruct (Z.ltb_spec (decimal raw) 9223372036854775808); [|lia].
      change time.Second with 1000000000.
      rewrite int64_small by lia.
      now rewrite Z.mul_comm.
    + split; [exact I|].
      destruct (Z.ltb_spec (decimal raw) 9223372036854775808);
        [lia|reflexivity].
  - intros Hd. rewrite Hd. split.
    + now intros d ->.
    + intros e He. rewrite He. split; [|reflexivity].
      exact (ParseDuration_error raw e He).
  - now intros [-> | ->].
  - intros ->. now split.
Qed.

(** *** The typed accessors *)

Lemma Kind_eqb_neq a b : a <> b -> reflect.Kind_eqb a b = false.
Proof. destruct a, b; simpl; congruence. Qed.

(** On a miss, the lookup behind the accessors fails or yields a kind that
    is not the accessor's. *)
Lemma getFieldValAndKind_miss t key k :
  misses t key k ->
  (exists e, getFieldValAndKind t key = inr e)
  \/ (exists v k', getFieldValAndKind t key = inl (v, k')
                   /\ reflect.Kind_eqb k' k = false).
Proof.
  intros [Hno | (f & Hf & Hk)].
  - left. exists (NoFieldWithConfkey key).
    unfold getFieldValAndKind. now rewrite (fieldWithKey_none t key Hno).
  - right. exists (Val f), (kind_of (Val f)).
    split; [exact (getFieldValAndKind_selected t key f Hf)|].
    exact (Kind_eqb_neq _ _ Hk).
Qed.

(** X18: when no field declares the key, or the field the key selects is not
    of the accessor's kind, each typed accessor returns the zero value of
    its type: the empty string, the empty sequence, false, 0.  The
    accessors have no error result. *)
Theorem typed_accessors_zero_on_miss t key :
  (misses t key reflect.String -> StringFieldWithKey t key = "")
  /\ (misses t key reflect.Slice -> StringListWithKey t key = [])
  /\ (misses t key reflect.Bool -> BoolWithKey t key = false)
  /\ (misses t key reflect.Int -> IntWithKey t key = 0)
  /\ (misses t key reflect.Int64 -> Int64WithKey t key = Ret 0).
Proof.
  repeat split; intros H;
    destruct (getFieldValAndKind_miss t key _ H) as [[e E] | (v & k' & E & K)];
    unfold StringFieldWithKey, StringListWithKey, BoolWithKey, IntWithKey,
      Int64WithKey; rewrite E; try rewrite K; reflexivity.
Qed.

(** *** Lookup by key *)

Lemma FieldByName_app_l l1 l2 n f :
  FieldByName l1 n = Some f -> FieldByName (l1 ++ l2)%list n = Some f.
Proof.
  induction l1 as [|g l1 IH]; simpl; [discriminate|].
  destruct (String.eqb (Name g) n); [trivial|exact IH].
Qed.

Lemma FieldByName_app_r l1 l2 n :
  ~ In n (map Name l1) -> FieldByName (l1 ++ l2)%list n = FieldByName l2 n.
Proof.
  induction l1 as [|g l1 IH]; simpl; [reflexivity|].
  intros H. destruct (String.eqb_spec (Name g) n) as [E|E].
  - exfalso. apply H. now left.
  - apply IH. intros H'. apply H. now right.
Qed.

(** Names whose field declares another key are passed over. *)
Lemma fieldWithKey_loop_skip t pre rest key :
  (forall n, In n pre -> fst (tag t n "confkey") <> key) ->
  fieldWithKey_loop t (pre ++ rest)%list key = fieldWithKey_loop t rest key.
Proof.
  induction pre as [|n pre IH]; intros H; simpl; [reflexivity|].
  pose proof (H n (or_introl eq_refl)) as Hn.
  destruct (tag t n "confkey") as [c ok]. simpl in Hn.
  apply String.eqb_neq in Hn. rewrite Hn.
  apply IH. intros m Hm. apply H. now right.
Qed.

Lemma fieldWithKey_loop_sound t names key item :
  fieldWithKey_loop t names key = inl item ->
  In item names /\ fst (tag t item "confkey") = key.
Proof.
  induction names as [|n names IH]; simpl; [discriminate|].
  destruct (tag t n "confkey") as [c ok] eqn:E.
  destruct (String.eqb_spec c key) as [Ec|Ec].
  - intros [= <-]. rewrite E. split; [now left|exact Ec].
  - intros H. apply IH in H as [H1 H2]. split; [now right|exact H2].
Qed.

(** X1: the first field, in declaration order, whose tag [confkey] equals
    the key is the one [fieldWithKey] returns, and the one the mutating and
    reading operations then work on; fields after it that declare the same
    key are never reached. *)
Theorem fieldWithKey_first_match l1 f l2 key :
  (forall g, In g l1 -> Get (Tag g) "confkey" <> key) ->
  Get (Tag f) "confkey" = key ->
  ~ In (Name f) (map Name l1) ->
  fieldWithKey (PtrTo (l1 ++ f :: l2)%list) key = inl (Name f)
  /\ field_for (PtrTo (l1 ++ f :: l2)%list) key = Some f.
Proof.
  intros Hl1 Hf Hn.
  assert (Ef : FieldByName (l1 ++ f :: l2)%list (Name f) = Some f).
  { rewrite FieldByName_app_r by exact Hn. simpl.
    now rewrite String.eqb_refl. }
  assert (E : fieldWithKey (PtrTo (l1 ++ f :: l2)%list) key = inl (Name f)).
  { unfold fieldWithKey. simpl. rewrite map_app. simpl.
    rewrite fieldWithKey_loop_skip.
    - simpl. rewrite (tag_of_field _ _ _ _ Ef), Hf.
      now rewrite String.eqb_refl.
    - intros n Hin.
      destruct (FieldByName_of_names l1 n Hin) as [g Hg].
      rewrite (tag_of_field _ _ _ _ (FieldByName_app_l _ (f :: l2) _ _ Hg)).
      simpl. apply Hl1. exact (FieldByName_In _ _ _ Hg). }
  split; [exact E|]. unfold field_for. now rewrite E.
Qed.

(** The name [fieldWithKey] returns is that of a field that declares the
    key. *)
Lemma fieldWithKey_item t key item :
  fieldWithKey t key = inl item ->
  exists f, FieldByName (fields_of t) item = Some f
            /\ Get (Tag f) "confkey" = key.
Proof.
  unfold fieldWithKey, reflections.Fields, fields_of.
  destruct (reflections.structure_of t) as [s|] eqn:Es; [|discriminate].
  intros H. apply fieldWithKey_loop_sound in H as [Hin Hk].
  destruct (FieldByName_of_names s item Hin) as [f Hf].
  exists f. split; [exact Hf|].
  unfold tag, reflections.GetFieldTag, reflections.lookup in Hk.
  now rewrite Es, Hf in Hk.
Qed.

(** X2: when [fieldWithKey] succeeds, the name it returns is that of a field
    of the target whose tag [confkey] equals the key, and that field is the
    one the key selects; this holds for a structure passed by pointer or by
    value. *)
Theorem fieldWithKey_sound t key item :
  fieldWithKey t key = inl item ->
  exists f, field_for t key = Some f
            /\ Name f = item
            /\ In f (fields_of t)
            /\ Get (Tag f) "confkey" = key.
Proof.
  intros H. destruct (fieldWithKey_item t key item H) as (f & Ef & Kf).
  exists f. unfold field_for. rewrite H.
  split; [exact Ef|]. split; [exact (FieldByName_name _ _ _ Ef)|].
  split; [exact (FieldByName_In _ _ _ Ef)|exact Kf].
Qed.

(** X3: when no field declares the key, [SetStructFieldWithKey] returns the
    error "can't find any structure element configured with confkey" for
    that key, writes nothing and does not reach the validation. *)
Theorem unknown_key_rejected env s key value :
  (forall f, In f s -> Get (Tag f) "confkey" <> key) ->
  SetField env (PtrTo s) key value
  = Return (Some (NoFieldWithConfkey key)) (PtrTo s).
Proof.
  intros H. unfold SetStructFieldWithKey.
  now rewrite (fieldWithKey_none (PtrTo s) key H).
Qed.

Lemma shape_store s item v : shape (store s item v) = shape s.
Proof.
  induction s as [|g s IH]; simpl; [reflexivity|].
  destruct (String.eqb (Name g) item); simpl; [reflexivity|now rewrite IH].
Qed.

Lemma FieldByName_store_other s item n v :
  n <> item -> FieldByName (store s item v) n = FieldByName s n.
Proof.
  intros H. rewrite FieldByName_store.
  apply String.eqb_neq in H. now rewrite H.
Qed.

(** X4: whatever the outcome of [SetStructFieldWithKey] on a pointer target
    (a return with or without error, or a panic), the target keeps the
    names and tags of its fields, and every field other than the one the key
    selects keeps its value. *)
Theorem SetStructFieldWithKey_frame env s key value :
  exists s',
    after (SetField env (PtrTo s) key value) = PtrTo s'
    /\ shape s' = shape s
    /\ forall n, fieldWithKey (PtrTo s) key <> inl n ->
                 FieldByName s' n = FieldByName s n.
Proof.
  unfold SetStructFieldWithKey.
  destruct (fieldWithKey (PtrTo s) key) as [item|e]; [|now exists s].
  destruct (FieldByName s item) as [f|]; [|now exists s].
  destruct (conv (PtrTo s) item f (override env (PtrTo s) item value))
    as [v|err|v]; cbn [after].
  - exists (store s item v). split; [reflexivity|].
    split; [apply shape_store|].
    intros n Hn. apply FieldByName_store_other. congruence.
  - now exists s.
  - exists (store s item v). split; [reflexivity|].
    split; [apply shape_store|].
    intros n Hn. apply FieldByName_store_other. congruence.
Qed.

(** *** Reading back what was written *)

Lemma getFieldValAndKind_stored s key f v :
  field_for (PtrTo s) key = Some f ->
  getFieldValAndKind (PtrTo (store s (Name f) v)) key = inl (v, kind_of v).
Proof.
  intros Hf.
  now rewrite (getFieldValAndKind_selected _ _ _ (field_for_store _ _ _ v Hf)).
Qed.

(** X5: on a field of type [string] whose tag [type] is not
    [title_string], the string the call works with is stored byte for byte,
    without trimming; the call returns the verdict of the validation and the
    new value stays in place whatever that verdict is; [StringFieldWithKey]
    then returns the stored string. *)
Theorem string_field_assigned_verbatim env s key f old value raw :
  field_for (PtrTo s) key = Some f ->
  Val f = VString old ->
  Get (Tag f) "type" <> "title_string" ->
  override env (PtrTo s) (Name f) value = Str raw ->
  let s' := store s (Name f) (VString raw) in
  SetField env (PtrTo s) key value = Return (V s' (Name f)) (PtrTo s')
  /\ StringFieldWithKey (PtrTo s') key = raw.
Proof.
  intros Hf Hv Ht Ho s'. split.
  - rewrite (SetStructFieldWithKey_selected _ _ _ _ _ Hf).
    pose proof (field_for_inv _ _ _ Hf) as [_ Hn].
    unfold convert. rewrite Hv, Ho, (tag_of_field _ _ _ _ Hn).
    apply String.eqb_neq in Ht. now rewrite Ht.
  - unfold StringFieldWithKey, s'.
    now rewrite (getFieldValAndKind_stored _ _ _ _ Hf).
Qed.

(** Every error of [Atoi] is a [NumError]. *)
Lemma Atoi_error raw e : strconv.Atoi raw = inr e -> ConversionError e.
Proof.
  unfold strconv.Atoi. destruct raw as [|c s]; [now intros [= <-]|].
  repeat
    match goal with
    | |- inr _ = inr _ -> _ => intros [= <-]; exact I
    | |- inl _ = inr _ -> _ => discriminate
    | |- context [match ?x with _ => _ end] => destruct x
    end.
Qed.

(** X6: on a field of type [int], where [raw] is the string the call works
    with.  When [raw] is all decimal digits and denotes less than 2^63 the
    field is set to that number and [IntWithKey] returns it; when [raw] is
    empty or starts with a byte that is neither a digit nor a sign, or
    denotes 2^63 or more, the call fails with the error of [Atoi], the field
    keeps its value and the validation is not reached. *)
Theorem int_field_conversion env s key f old value raw :
  field_for (PtrTo s) key = Some f ->
  Val f = VInt old ->
  override env (PtrTo s) (Name f) value = Str raw ->
  let failed :=
    exists e, ConversionError e
              /\ SetField env (PtrTo s) key value = Return (Some e) (PtrTo s) in
  (regexp.Match_digits raw = true -> decimal raw < 2 ^ 63 ->
   let s' := store s (Name f) (VInt (decimal raw)) in
   SetField env (PtrTo s) key value = Return (V s' (Name f)) (PtrTo s')
   /\ IntWithKey (PtrTo s') key = decimal raw)
  /\ (regexp.Match_digits raw = true -> 2 ^ 63 <= decimal raw -> failed)
  /\ (raw = "" -> failed)
  /\ (forall c rest, raw = String c rest ->
        isDigit c = false -> c <> "+"%char -> c <> "-"%char -> failed).
Proof.
  intros Hf Hv Ho failed.
  assert (E : SetField env (PtrTo s) key value =
              match strconv.Atoi raw with
              | inr err => Return (Some err) (PtrTo s)
              | inl i =>
                Return (V (store s (Name f) (VInt i)) (Name f))
                       (PtrTo (store s (Name f) (VInt i)))
              end).
  { rewrite (SetStructFieldWithKey_selected _ _ _ _ _ Hf).
    unfold convert. rewrite Hv, Ho. cbn [kind_of].
    now destruct (strconv.Atoi raw). }
  assert (F : forall e, strconv.Atoi raw = inr e -> failed).
  { intros e He. exists e. split; [exact (Atoi_error _ _ He)|].
    now rewrite E, He. }
  split; [|split; [|split]].
  - intros Hd Hr s'. rewrite E, (Atoi_digits raw Hd).
    destruct (Z.ltb_spec (decimal raw) (2 ^ 63)); [|lia].
    split; [reflexivity|]. unfold IntWithKey, s'.
    now rewrite (getFieldValAndKind_stored _ _ _ _ Hf).
  - intros Hd Hr. apply (F (NumError "Atoi" raw ErrRange)).
    rewrite (Atoi_digits raw Hd).
    destruct (Z.ltb_spec (decimal raw) (2 ^ 63)); [lia|reflexivity].
  - intros ->. now apply (F (NumError "Atoi" "" ErrSyntax)).
  - intros c rest -> Hc Hp Hm.
    apply (F (NumError "Atoi" (String c rest) ErrSyntax)).
    unfold strconv.Atoi.
    apply Ascii.eqb_neq in Hp, Hm. rewrite Hp, Hm. cbn [orb].
    unfold strconv.ParseUint. cbn [strconv.ParseUint_loop].
    now rewrite Hc.
Qed.

(** X7: on a field of type [bool], a string that [strToBool] recognises as
    [b] is stored as [b], the call returns the verdict of the validation,
    and [BoolWithKey] then returns [b]. *)
Theorem bool_field_recognised env s key f old value raw b :
  field_for (PtrTo s) key = Some f ->
  Val f = VBool old ->
  override env (PtrTo s) (Name f) value = Str raw ->
  strToBool raw = (b, None) ->
  let s' := store s (Name f) (VBool b) in
  SetField env (PtrTo s) key value = Return (V s' (Name f)) (PtrTo s')
  /\ BoolWithKey (PtrTo s') key = b.
Proof.
  intros Hf Hv Ho Hb s'. split.
  - rewrite (SetStructFieldWithKey_selected _ _ _ _ _ Hf).
    unfold convert. now rewrite Hv, Ho, Hb.
  - unfold BoolWithKey, s'.
    now rewrite (getFieldValAndKind_stored _ _ _ _ Hf).
Qed.

(** X8: when the key selects a field, each typed accessor returns the
    field's value if the field has exactly the accessor's type.  On a field
    of the accessor's kind but of another type (a named type), the checked
    accessors return the zero value, whereas [Int64WithKey], whose type
    assertion is unchecked, panics; this includes every field of type
    [time.Duration]. *)
Theorem typed_accessors_on_hit t key f :
  field_for t key = Some f ->
  (forall v, Val f = VString v -> StringFieldWithKey t key = v)
  /\ (forall v, Val f = VStrings v -> StringListWithKey t key = v)
  /\ (forall v, Val f = VBool v -> BoolWithKey t key = v)
  /\ (forall v, Val f = VInt v -> IntWithKey t key = v)
  /\ (forall v, Val f = VInt64 v -> Int64WithKey t key = Ret v)
  /\ (forall d, Val f = VDuration d -> Int64WithKey t key = Panics)
  /\ (forall k, Val f = VOther k ->
        StringFieldWithKey t key = ""
        /\ StringListWithKey t key = []
        /\ BoolWithKey t key = false
        /\ IntWithKey t key = 0
        /\ Int64WithKey t key =
           if reflect.Kind_eqb k reflect.Int64 then Panics else Ret 0).
Proof.
  intros Hf. pose proof (getFieldValAndKind_selected t key f Hf) as E.
  unfold StringFieldWithKey, StringListWithKey, BoolWithKey, IntWithKey,
    Int64WithKey. rewrite E.
  repeat split; intros; match goal with H : Val f = _ |- _ => rewrite H end;
    try reflexivity; now destruct k.
Qed.

(** One call on a field of type [[]string] with [type:"path_split"]. *)
Lemma path_split_call env s key f old value raw :
  field_for (PtrTo s) key = Some f ->
  Val f = VStrings old ->
  Get (Tag f) "type" = "path_split" ->
  override env (PtrTo s) (Name f) value = Str raw ->
  SetField env (PtrTo s) key value =
  let s' := store s (Name f)
              (VStrings (old ++ map strings.TrimSpace
                                    (strings.Split raw PathListSeparator))) in
  Return (V s' (Name f)) (PtrTo s').
Proof.
  intros Hf Hv Ht Ho.
  rewrite (SetStructFieldWithKey_selected _ _ _ _ _ Hf).
  apply field_for_inv in Hf as [_ Hf].
  unfold convert. rewrite Hv, Ho, (tag_of_field _ _ _ _ Hf), Ht.
  cbn [kind_of String.eqb Ascii.eqb Bool.eqb].
  now rewrite append_trimmed_app.
Qed.

(** X9: on a field of type [[]string] with [type:"path_split"], the call
    appends to what the field held the parts of the string between the
    host's path list separators, each trimmed, empty parts included;
    [StringListWithKey] returns the extended sequence, and a second call
    appends after the parts of the first. *)
Theorem path_split_appends env s key f old value raw :
  field_for (PtrTo s) key = Some f ->
  Val f = VStrings old ->
  Get (Tag f) "type" = "path_split" ->
  override env (PtrTo s) (Name f) value = Str raw ->
  let parts := map strings.TrimSpace (strings.Split raw PathListSeparator) in
  let s' := store s (Name f) (VStrings (old ++ parts)) in
  SetField env (PtrTo s) key value = Return (V s' (Name f)) (PtrTo s')
  /\ StringListWithKey (PtrTo s') key = (old ++ parts)%list
  /\ List.length parts = S (occurrences PathListSeparator raw)
  /\ (forall value2 raw2,
        override env (PtrTo s) (Name f) value2 = Str raw2 ->
        StringListWithKey (after (SetField env (PtrTo s') key value2)) key
        = (old ++ parts
               ++ map strings.TrimSpace
                      (strings.Split raw2 PathListSeparator))%list).
Proof.
  intros Hf Hv Ht Ho parts s'.
  split; [exact (path_split_call _ _ _ _ _ _ _ Hf Hv Ht Ho)|].
  split; [exact (StringListWithKey_stored _ _ _ _ Hf)|].
  split; [unfold parts; now rewrite length_map, Split_length|].
  intros value2 raw2 Ho2. unfold s'.
  rewrite (path_split_call env _ key _ (old ++ parts) value2 raw2
             (field_for_store _ _ _ _ Hf) eq_refl Ht).
  - cbn [after Name]. rewrite store_store, <- app_assoc.
    exact (StringListWithKey_stored _ _ _ _ Hf).
  - cbn [Name]. now rewrite override_store.
Qed.

(** *** The defaults pass *)

(** Structures of the same shape agree on which field a name denotes, up to
    the value the field holds. *)
Lemma FieldByName_shape s1 :
  forall s2 n,
    shape s1 = shape s2 ->
    option_map (fun f => (Name f, Tag f)) (FieldByName s1 n)
    = option_map (fun f => (Name f, Tag f)) (FieldByName s2 n).
Proof.
  induction s1 as [|a s1 IH]; intros [|b s2] n; simpl; try discriminate;
    [reflexivity|].
  intros [= En Et Es]. rewrite En.
  destruct (String.eqb (Name b) n); simpl; [now rewrite En, Et|].
  now apply IH.
Qed.

Lemma tag_shape s1 s2 n k :
  shape s1 = shape s2 -> tag (PtrTo s1) n k = tag (PtrTo s2) n k.
Proof.
  intros H. pose proof (FieldByName_shape s1 s2 n H) as E.
  unfold tag, reflections.GetFieldTag, reflections.lookup. simpl.
  destruct (FieldByName s1 n) as [a|], (FieldByName s2 n) as [b|];
    simpl in E; try discriminate; [|reflexivity].
  now injection E as _ ->.
Qed.

Lemma fieldWithKey_shape s1 s2 key :
  shape s1 = shape s2 ->
  fieldWithKey (PtrTo s1) key = fieldWithKey (PtrTo s2) key.
Proof.
  intros H. unfold fieldWithKey. simpl.
  assert (N : map Name s1 = map Name s2).
  { unfold shape in H.
    apply (f_equal (map fst)) in H. now rewrite !map_map in H. }
  rewrite N. generalize (map Name s2) as names.
  induction names as [|n names IH]; simpl; [reflexivity|].
  now rewrite (tag_shape s1 s2 n "confkey" H), IH.
Qed.

Lemma convert_shape s1 s2 item f value :
  shape s1 = shape s2 ->
  conv (PtrTo s1) item f value = conv (PtrTo s2) item f value.
Proof.
  intros H. unfold convert. now rewrite (tag_shape s1 s2 item "type" H).
Qed.

Lemma override_shape env s1 s2 item value :
  shape s1 = shape s2 ->
  override env (PtrTo s1) item value = override env (PtrTo s2) item value.
Proof.
  intros H. unfold override.
  now rewrite (tag_shape s1 s2 item "environment" H).
Qed.

Lemma FieldByName_of_In s f :
  NoDup (map Name s) -> In f s -> FieldByName s (Name f) = Some f.
Proof.
  induction s as [|g s IH]; simpl; [tauto|].
  intros Hd [<- | Hin]; [now rewrite String.eqb_refl|].
  inversion Hd as [|? ? Hn Hd']; subst.
  destruct (String.eqb_spec (Name g) (Name f)) as [E|E].
  - exfalso. apply Hn. rewrite E. now apply in_map.
  - now apply IH.
Qed.

(** A name whose field declares the key makes the scan succeed. *)
Lemma fieldWithKey_loop_complete t names key n :
  In n names -> fst (tag t n "confkey") = key ->
  exists item, fieldWithKey_loop t names key = inl item.
Proof.
  induction names as [|m names IH]; simpl; [tauto|].
  intros Hin Hk. destruct (tag t m "confkey") as [c ok] eqn:E.
  destruct (String.eqb_spec c key) as [Ec|Ec]; [now eexists|].
  destruct Hin as [-> | Hin]; [|now apply IH].
  rewrite E in Hk. simpl in Hk. congruence.
Qed.

(** With unique keys, a key that is not empty selects the field that
    declares it. *)
Lemma field_for_unique s f :
  NoDup (map Name s) -> keys_unique s -> In f s ->
  Get (Tag f) "confkey" <> "" ->
  field_for (PtrTo s) (Get (Tag f) "confkey") = Some f.
Proof.
  intros Hd Hu Hin Hk.
  pose proof (FieldByName_of_In s f Hd Hin) as Ef.
  destruct (fieldWithKey_loop_complete (PtrTo s) (map Name s)
              (Get (Tag f) "confkey") (Name f)) as [item E].
  { now apply in_map. }
  { now rewrite (tag_of_field _ _ _ _ Ef). }
  assert (E' : fieldWithKey (PtrTo s) (Get (Tag f) "confkey") = inl item)
    by exact E.
  destruct (fieldWithKey_item _ _ _ E') as (g & Eg & Kg).
  change (fields_of (PtrTo s)) with s in Eg.
  assert (Name g = Name f).
  { apply Hu; [exact (FieldByName_In _ _ _ Eg)|exact Hin|exact Kg|].
    now rewrite Kg. }
  pose proof (FieldByName_name _ _ _ Eg) as Ng.
  unfold field_for. rewrite E'. change (fields_of (PtrTo s)) with s.
  congruence.
Qed.

(** The invariant of the loop of [SetStructDefaults] when it ends without
    error: names already passed hold their converted default, names still
    to come hold what they held at the start. *)
Lemma SetStructDefaults_loop_done env s0 :
  NoDup (map Name s0) -> keys_unique s0 ->
  forall names s t',
    shape s = shape s0 ->
    NoDup names ->
    (forall n, In n names -> FieldByName s n = FieldByName s0 n) ->
    SetStructDefaults_loop To_UpperCase PathListSeparator V env (PtrTo s) names
    = Return None t' ->
    exists s',
      t' = PtrTo s' /\ shape s' = shape s0
      /\ (forall n, ~ In n names -> FieldByName s' n = FieldByName s n)
      /\ (forall n g, In n names -> FieldByName s0 n = Some g ->
            if has_default g then
              exists v,
                conv (PtrTo s0) n g
                     (override env (PtrTo s0) n (Str (Get (Tag g) "default")))
                = Done v
                /\ FieldByName s' n = Some (mkField n (Tag g) v)
            else FieldByName s' n = Some g).
Proof.
  intros Hd0 Hu. induction names as [|n names IH]; intros s t' Hs Hd Hsame.
  - cbn [SetStructDefaults_loop]. intros [= <-]. exists s.
    repeat split; trivial. intros n g [].
  - inversion Hd as [|? ? Hn Hd']; subst.
    cbn [SetStructDefaults_loop].
    unfold reflections.GetFieldTag, reflections.lookup.
    cbn [reflections.structure_of].
    pose proof (Hsame n (or_introl eq_refl)) as En. rewrite En.
    assert (Hrest : forall m, In m names -> FieldByName s m = FieldByName s0 m)
      by (intros m Hm; apply Hsame; now right).
    destruct (FieldByName s0 n) as [g|] eqn:Eg.
    + fold (has_default g). destruct (has_default g) eqn:Hg.
      * pose proof (FieldByName_name _ _ _ Eg) as Ng.
        pose proof (FieldByName_In _ _ _ Eg) as Ig.
        assert (Kg : Get (Tag g) "confkey" <> "").
        { unfold has_default in Hg. apply andb_prop in Hg as [Hg _].
          now apply String.eqb_neq, negb_true_iff. }
        pose proof (field_for_unique s0 g Hd0 Hu Ig Kg) as F0.
        assert (F : field_for (PtrTo s) (Get (Tag g) "confkey") = Some g).
        { apply field_for_inv in F0 as [F1 _]. unfold field_for.
          rewrite (fieldWithKey_shape s s0 _ Hs), F1.
          change (fields_of (PtrTo s)) with s. now rewrite Ng, En. }
        rewrite (SetStructFieldWithKey_selected _ _ _ _ _ F).
        rewrite (convert_shape s s0 _ _ _ Hs), (override_shape env s s0 _ _ Hs).
        rewrite Ng.
        destruct (conv (PtrTo s0) n g
                       (override env (PtrTo s0) n
                                 (Str (Get (Tag g) "default"))))
          as [v|err|v] eqn:Ec; try discriminate.
        destruct (V (store s n v) n); [discriminate|].
        intros Hl.
        destruct (IH (store s n v) t') as (s' & Et & Hsh & Hout & Hin);
          trivial.
        { now rewrite shape_store. }
        { intros m Hm. rewrite FieldByName_store_other; [now apply Hrest|].
          congruence. }
        exists s'. split; [exact Et|]. split; [exact Hsh|]. split.
        -- intros m Hm. rewrite Hout by (intros H; apply Hm; now right).
           apply FieldByName_store_other. intros ->. apply Hm. now left.
        -- intros m h [<- | Hm] Eh.
           ++ rewrite Eg in Eh. injection Eh as <-. rewrite Hg.
              exists v. split; [exact Ec|].
              rewrite (Hout n Hn), FieldByName_store, String.eqb_refl, En.
              simpl. now rewrite Ng.
           ++ now apply Hin.
      * intros Hl. destruct (IH s t') as (s' & Et & Hsh & Hout & Hin); trivial.
        exists s'. split; [exact Et|]. split; [exact Hsh|]. split.
        -- intros m Hm. apply Hout. intros H. apply Hm. now right.
        -- intros m h [<- | Hm] Eh.
           ++ rewrite Eg in Eh. injection Eh as <-. rewrite Hg.
              now rewrite (Hout n Hn), En.
           ++ now apply Hin.
    + cbn [String.eqb negb andb]. intros Hl.
      destruct (IH s t') as (s' & Et & Hsh & Hout & Hin); trivial.
      exists s'. split; [exact Et|]. split; [exact Hsh|]. split.
      * intros m Hm. apply Hout. intros H. apply Hm. now right.
      * intros m h [<- | Hm] Eh; [congruence|now apply Hin].
Qed.

(** X10: when field names are distinct and no key that is not empty is
    declared twice, a defaults pass that returns no error leaves every field
    that declares both a key and a default holding the result of converting
    that default (or the field's environment variable, when set) from the
    value the field held before the pass, and leaves every other field as it
    was. *)
Theorem defaults_pass_assigns env s t' :
  NoDup (map Name s) -> keys_unique s ->
  SetDefaults env (PtrTo s) = Return None t' ->
  exists s',
    t' = PtrTo s'
    /\ forall f, In f s ->
         if has_default f then
           exists v,
             conv (PtrTo s) (Name f) f
                  (override env (PtrTo s) (Name f)
                            (Str (Get (Tag f) "default")))
             = Done v
             /\ FieldByName s' (Name f) = Some (mkField (Name f) (Tag f) v)
         else FieldByName s' (Name f) = Some f.
Proof.
  intros Hd Hu. unfold SetStructDefaults, reflections.Fields.
  cbn [reflections.structure_of]. intros Hl.
  destruct (SetStructDefaults_loop_done env s Hd Hu (map Name s) s t')
    as (s' & Et & _ & _ & Hin); trivial.
  exists s'. split; [exact Et|].
  intros f Hf. apply Hin; [now apply in_map|now apply FieldByName_of_In].
Qed.

(** X11: under the same conditions, after a defaults pass without error the
    accessor [StringFieldWithKey] returns, for the key of a field of type
    [string] that is not a [title_string] and declares a default, that
    default, or the value of the field's environment variable when set. *)
Theorem defaults_pass_read_back env s t' f old raw :
  NoDup (map Name s) -> keys_unique s ->
  SetDefaults env (PtrTo s) = Return None t' ->
  In f s -> has_default f = true ->
  Val f = VString old ->
  Get (Tag f) "type" <> "title_string" ->
  override env (PtrTo s) (Name f) (Str (Get (Tag f) "default")) = Str raw ->
  StringFieldWithKey t' (Get (Tag f) "confkey") = raw.
Proof.
  intros Hd Hu Hl Hf Hdef Hv Ht Ho.
  unfold SetStructDefaults, reflections.Fields in Hl.
  cbn [reflections.structure_of] in Hl.
  destruct (SetStructDefaults_loop_done env s Hd Hu (map Name s) s t')
    as (s' & -> & Hsh & _ & Hin); trivial.
  pose proof (FieldByName_of_In s f Hd Hf) as Ef.
  specialize (Hin (Name f) f (in_map Name _ _ Hf) Ef).
  rewrite Hdef in Hin. destruct Hin as (v & Ec & Es').
  assert (v = VString raw).
  { pose proof Ec as Ec'. unfold convert in Ec'.
    rewrite Hv, Ho, (tag_of_field _ _ _ _ Ef) in Ec'.
    apply String.eqb_neq in Ht. rewrite Ht in Ec'.
    cbn in Ec'. congruence. }
  subst v.
  assert (Kf : Get (Tag f) "confkey" <> "").
  { unfold has_default in Hdef. apply andb_prop in Hdef as [Hk _].
    now apply String.eqb_neq, negb_true_iff. }
  pose proof (field_for_unique s f Hd Hu Hf Kf) as F0.
  apply field_for_inv in F0 as [F1 _].
  assert (F : field_for (PtrTo s') (Get (Tag f) "confkey")
              = Some (mkField (Name f) (Tag f) (VString raw))).
  { unfold field_for. rewrite (fieldWithKey_shape s' s _ Hsh), F1.
    exact Es'. }
  unfold StringFieldWithKey.
  now rewrite (getFieldValAndKind_selected _ _ _ F).
Qed.

(** The pass skips every name whose field declares no default. *)
Lemma SetStructDefaults_loop_skip env s names rest :
  (forall n g, In n names -> FieldByName s n = Some g ->
               has_default g = false) ->
  SetStructDefaults_loop To_UpperCase PathListSeparator V env (PtrTo s)
    (names ++ rest)%list
  = SetStructDefaults_loop To_UpperCase PathListSeparator V env (PtrTo s) rest.
Proof.
  induction names as [|n names IH]; intros H; [reflexivity|].
  cbn [app SetStructDefaults_loop].
  unfold reflections.GetFieldTag, reflections.lookup.
  cbn [reflections.structure_of].
  assert (IH' := IH (fun m g Hm => H m g (or_intror Hm))).
  destruct (FieldByName s n) as [g|] eqn:Eg.
  - pose proof (H n g (or_introl eq_refl) Eg) as Hg.
    unfold has_default in Hg. now rewrite Hg.
  - exact IH'.
Qed.

(** X12: when no field declares both a key and a default, the defaults pass
    returns no error, writes nothing and does not reach the validation. *)
Theorem defaults_pass_without_defaults env s :
  (forall f, In f s -> has_default f = false) ->
  SetDefaults env (PtrTo s) = Return None (PtrTo s).
Proof.
  intros H. unfold SetStructDefaults, reflections.Fields.
  cbn [reflections.structure_of].
  rewrite <- (app_nil_r (map Name s)).
  rewrite SetStructDefaults_loop_skip; [reflexivity|].
  intros n g _ Eg. apply H. exact (FieldByName_In _ _ _ Eg).
Qed.

(** X13: the defaults pass stops at the first error.  When the first field
    that declares a default cannot convert it, the pass returns the
    conversion error and leaves the structure as it was: the fields after
    it do not receive their defaults. *)
Theorem defaults_pass_stops_at_first_error env l1 f l2 err :
  (forall g, In g l1 -> has_default g = false) ->
  has_default f = true ->
  ~ In (Name f) (map Name l1) ->
  field_for (PtrTo (l1 ++ f :: l2)%list) (Get (Tag f) "confkey") = Some f ->
  conv (PtrTo (l1 ++ f :: l2)%list) (Name f) f
       (override env (PtrTo (l1 ++ f :: l2)%list) (Name f)
                 (Str (Get (Tag f) "default")))
  = Failed err ->
  SetDefaults env (PtrTo (l1 ++ f :: l2)%list)
  = Return (Some err) (PtrTo (l1 ++ f :: l2)%list).
Proof.
  intros H1 Hf Hn F Ec.
  unfold SetStructDefaults, reflections.Fields.
  cbn [reflections.structure_of]. rewrite map_app. cbn [map].
  rewrite SetStructDefaults_loop_skip.
  - cbn [SetStructDefaults_loop].
    unfold reflections.GetFieldTag, reflections.lookup.
    cbn [reflections.structure_of].
    rewrite FieldByName_app_r by exact Hn. cbn [FieldByName].
    rewrite String.eqb_refl. fold (has_default f). rewrite Hf.
    now rewrite (SetStructFieldWithKey_selected _ _ _ _ _ F), Ec.
  - intros n g Hin Eg.
    destruct (FieldByName_of_names l1 n Hin) as [g' Eg'].
    rewrite (FieldByName_app_l _ (f :: l2) _ _ Eg') in Eg.
    injection Eg as <-. apply H1. exact (FieldByName_In _ _ _ Eg').
Qed.

(** *** ASCII strings: boolean words and title strings *)

Lemma byte_bound c : 0 <= byte c < 256.
Proof. unfold byte. pose proof (nat_ascii_bounded c). lia. Qed.

Lemma byte_chr n : 0 <= n < 256 -> byte (chr n) = n.
Proof.
  intros H. unfold byte, chr. rewrite nat_ascii_embedding; lia.
Qed.

Lemma chr_byte c : chr (byte c) = c.
Proof. unfold byte, chr. now rewrite Nat2Z.id, ascii_nat_embedding. Qed.

Lemma byte_inj c d : byte c = byte d -> c = d.
Proof. intros H. rewrite <- (chr_byte c), <- (chr_byte d). now rewrite H. Qed.

Lemma ascii_eqb_byte c d : Ascii.eqb c d = (byte c =? byte d).
Proof.
  destruct (Ascii.eqb_spec c d) as [->|N].
  - now rewrite Z.eqb_refl.
  - symmetry. apply Z.eqb_neq. intros H. apply N. now apply byte_inj.
Qed.

(** The runes of an ASCII string are its bytes. *)
Lemma runes_of_string_ascii c s :
  byte c < 128 -> runes_of_string (String c s) = byte c :: runes_of_string s.
Proof.
  intros H. unfold runes_of_string. cbn [runes_from].
  unfold utf8.DecodeRuneInString, utf8.RuneSelf.
  destruct (Z.ltb_spec (byte c) 128); [reflexivity|lia].
Qed.

(** Under case folding, a pattern byte that is no upper-case letter matches
    an ASCII byte exactly when it is the lower-case form of that byte. *)
Lemma fold_eq_lower p c :
  ~ (65 <= byte p <= 90) -> byte c < 128 ->
  regexp.fold_eq p (byte c) = Ascii.eqb p (lower_char c).
Proof.
  intros Hp Hc. pose proof (byte_bound c) as Bc.
  pose proof (byte_bound p) as Bp.
  rewrite ascii_eqb_byte. unfold regexp.fold_eq, lower_char.
  destruct (Z.leb_spec 65 (byte c)), (Z.leb_spec (byte c) 90);
    cbn [andb]; try rewrite byte_chr by lia;
    destruct (Z.leb_spec 97 (byte p)), (Z.leb_spec (byte p) 122);
    cbn [andb];
    repeat
      match goal with
      | |- context [?a =? ?b] => destruct (Z.eqb_spec a b)
      end; cbn [andb orb]; try reflexivity; lia.
Qed.

Lemma fold_match_lower w :
  forall s, no_upper w = true -> is_ascii s = true ->
  regexp.fold_match w (runes_of_string s) = String.eqb w (lower s).
Proof.
  induction w as [|p w IH]; intros [|c s] Hw Hs; try reflexivity.
  - simpl in Hs. apply andb_prop in Hs as [Hc _]. apply Z.ltb_lt in Hc.
    now rewrite runes_of_string_ascii.
  - simpl in Hs. apply andb_prop in Hs as [Hc Hs]. apply Z.ltb_lt in Hc.
    simpl in Hw. apply andb_prop in Hw as [Hp Hw].
    assert (Hp' : ~ (65 <= byte p <= 90)).
    { apply negb_true_iff, andb_false_iff in Hp. lia. }
    rewrite runes_of_string_ascii by exact Hc.
    cbn [regexp.fold_match lower String.eqb].
    rewrite (fold_eq_lower p c Hp' Hc), (IH s Hw Hs).
    now destruct (Ascii.eqb p (lower_char c)).
Qed.

(** For words without upper-case letters, the case-insensitive match of an
    ASCII string is membership of its lower-case form. *)
Lemma Match_words_lower words s :
  forallb no_upper words = true -> is_ascii s = true ->
  regexp.Match_words words s = among words (lower s).
Proof.
  intros Hw Hs. unfold regexp.Match_words, among.
  induction words as [|w words IH]; [reflexivity|].
  cbn [forallb] in Hw. apply andb_prop in Hw as [Hw Hws].
  cbn [existsb]. rewrite (IH Hws), (fold_match_lower w s Hw Hs).
  now rewrite String.eqb_sym.
Qed.

(** X14: [strToBool] on a string whose trimmed form is ASCII: the result is
    true without error exactly when the trimmed form, in lower case, is one
    of [1], [yes], [true], [y], [t]; false without error exactly when it is
    one of [0], [no], [false], [n], [f]; and otherwise false with the error
    that quotes the trimmed form.  So recognition ignores case and
    surrounding white space and nothing else. *)
Theorem strToBool_ascii s :
  is_ascii (strings.TrimSpace s) = true ->
  strToBool s =
  let clean := strings.TrimSpace s in
  if among ["1"; "yes"; "true"; "y"; "t"] (lower clean) then (true, None)
  else if among ["0"; "no"; "false"; "n"; "f"] (lower clean)
       then (false, None)
       else (false, Some (CannotConvertBool clean)).
Proof.
  intros H. unfold strToBool.
  now rewrite !(fun ws Hws => Match_words_lower ws _ Hws H) by reflexivity.
Qed.

Lemma EncodeRune_ascii c : byte c < 128 -> utf8.EncodeRune (byte c) = String c "".
Proof.
  intros H. pose proof (byte_bound c). unfold utf8.EncodeRune.
  destruct (Z.leb_spec 0 (byte c)), (Z.leb_spec (byte c) 127); try lia.
  cbn [andb bytes]. now rewrite chr_byte.
Qed.

(** An ASCII string survives the conversion to runes and back. *)
Lemma string_of_runes_ascii s :
  is_ascii s = true -> string_of_runes (runes_of_string s) = s.
Proof.
  induction s as [|c s IH]; [reflexivity|]. simpl is_ascii.
  intros H. apply andb_prop in H as [Hc Hs]. apply Z.ltb_lt in Hc.
  rewrite runes_of_string_ascii by exact Hc. cbn [string_of_runes].
  now rewrite EncodeRune_ascii, IH.
Qed.

Lemma ToUpper_ascii c :
  byte c < 128 ->
  unicode.ToUpper To_UpperCase (byte c) = byte (upper_char c)
  /\ byte (upper_char c) < 128.
Proof.
  intros H. pose proof (byte_bound c).
  unfold unicode.ToUpper, unicode.MaxASCII, upper_char.
  destruct (Z.leb_spec (byte c) 127); [|lia].
  destruct (Z.leb_spec 97 (byte c)), (Z.leb_spec (byte c) 122);
    cbn [andb]; try rewrite byte_chr by lia; lia.
Qed.

(** X15: on a field of type [string] with [type:"title_string"], an ASCII
    string that is not empty is stored with its first byte turned to upper
    case when it is a lower-case letter, and otherwise unchanged, and
    [StringFieldWithKey] returns the stored string. *)
Theorem title_string_ascii env s key f old value c rest :
  field_for (PtrTo s) key = Some f ->
  Val f = VString old ->
  Get (Tag f) "type" = "title_string" ->
  override env (PtrTo s) (Name f) value = Str (String c rest) ->
  is_ascii (String c rest) = true ->
  let s' := store s (Name f) (VString (String (upper_char c) rest)) in
  SetField env (PtrTo s) key value = Return (V s' (Name f)) (PtrTo s')
  /\ StringFieldWithKey (PtrTo s') key = String (upper_char c) rest.
Proof.
  intros Hf Hv Ht Ho Ha s'.
  pose proof Ha as Ha'. simpl in Ha'. apply andb_prop in Ha' as [Hc Hr].
  apply Z.ltb_lt in Hc.
  destruct (ToUpper_ascii c Hc) as [Eu Bu].
  assert (E : string_of_runes
                (unicode.ToUpper To_UpperCase (byte c) :: runes_of_string rest)
              = String (upper_char c) rest).
  { cbn [string_of_runes]. rewrite Eu, (EncodeRune_ascii _ Bu).
    now rewrite string_of_runes_ascii. }
  split.
  - rewrite (SetStructFieldWithKey_selected _ _ _ _ _ Hf).
    pose proof (field_for_inv _ _ _ Hf) as [_ Hn].
    unfold convert. rewrite Hv, Ho, (tag_of_field _ _ _ _ Hn), Ht.
    cbn [kind_of andb String.eqb Ascii.eqb Bool.eqb].
    rewrite (runes_of_string_ascii c rest Hc). now rewrite E.
  - unfold StringFieldWithKey, s'.
    now rewrite (getFieldValAndKind_stored _ _ _ _ Hf).
Qed.

(** X16: a value that is not a string, when the environment does not
    replace it, makes the type assertion [value.(string)] panic on every
    field the call converts: fields of type [string], [bool] and [int],
    fields of type [[]string] with a split mode and fields of type
    [time.Duration] with [type:"duration"].  The field keeps its value,
    except under [comma_split], where it has been emptied before. *)
Theorem non_string_value_panics env s key f :
  field_for (PtrTo s) key = Some f ->
  override env (PtrTo s) (Name f) NotStr = NotStr ->
  ((exists v, Val f = VString v) \/ (exists v, Val f = VBool v)
   \/ (exists v, Val f = VInt v) ->
   SetField env (PtrTo s) key NotStr = Panic (PtrTo s))
  /\ (forall old, Val f = VStrings old ->
        (Get (Tag f) "type" = "comma_split" ->
         SetField env (PtrTo s) key NotStr
         = Panic (PtrTo (store s (Name f) (VStrings []))))
        /\ (Get (Tag f) "type" = "colon_split"
            \/ Get (Tag f) "type" = "path_split" ->
            SetField env (PtrTo s) key NotStr = Panic (PtrTo s)))
  /\ (forall d, Val f = VDuration d -> Get (Tag f) "type" = "duration" ->
        SetField env (PtrTo s) key NotStr = Panic (PtrTo s)).
Proof.
  intros Hf Ho.
  rewrite (SetStructFieldWithKey_selected _ _ _ _ _ Hf), Ho.
  pose proof (field_for_inv _ _ _ Hf) as [_ Hn].
  pose proof (store_same _ _ _ Hn) as Same.
  unfold convert. rewrite (tag_of_field _ _ _ _ Hn).
  split; [|split].
  - intros [[v E] | [[v E] | [v E]]]; rewrite E; cbn [kind_of];
      now rewrite <- E, Same.
  - intros old E. rewrite E. cbn [kind_of]. split.
    + now intros ->.
    + intros [-> | ->]; cbn; now rewrite <- E, Same.
  - intros d E ->. rewrite E. cbn. now rewrite <- E, Same.
Qed.

(** *** The environment override, kind by kind *)

Lemma string_call env s key f old value raw :
  field_for (PtrTo s) key = Some f ->
  Val f = VString old ->
  Get (Tag f) "type" <> "title_string" ->
  override env (PtrTo s) (Name f) value = Str raw ->
  SetField env (PtrTo s) key value =
  Return (V (store s (Name f) (VString raw)) (Name f))
         (PtrTo (store s (Name f) (VString raw))).
Proof.
  intros Hf Hv Ht Ho.
  rewrite (SetStructFieldWithKey_selected _ _ _ _ _ Hf).
  pose proof (field_for_inv _ _ _ Hf) as [_ Hn].
  unfold convert. rewrite Hv, Ho, (tag_of_field _ _ _ _ Hn).
  apply String.eqb_neq in Ht. now rewrite Ht.
Qed.

Lemma int_call env s key f old value raw i :
  field_for (PtrTo s) key = Some f ->
  Val f = VInt old ->
  override env (PtrTo s) (Name f) value = Str raw ->
  strconv.Atoi raw = inl i ->
  SetField env (PtrTo s) key value =
  Return (V (store s (Name f) (VInt i)) (Name f))
         (PtrTo (store s (Name f) (VInt i))).
Proof.
  intros Hf Hv Ho Ha.
  rewrite (SetStructFieldWithKey_selected _ _ _ _ _ Hf).
  unfold convert. now rewrite Hv, Ho, Ha.
Qed.

Lemma bool_call env s key f old value raw :
  field_for (PtrTo s) key = Some f ->
  Val f = VBool old ->
  override env (PtrTo s) (Name f) value = Str raw ->
  SetField env (PtrTo s) key value =
  Return (V (store s (Name f) (VBool (fst (strToBool raw)))) (Name f))
         (PtrTo (store s (Name f) (VBool (fst (strToBool raw))))).
Proof.
  intros Hf Hv Ho.
  rewrite (SetStructFieldWithKey_selected _ _ _ _ _ Hf).
  unfold convert. rewrite Hv, Ho. cbn [kind_of].
  now destruct (strToBool raw).
Qed.

Lemma duration_parse_call env s key f old value raw d :
  field_for (PtrTo s) key = Some f ->
  Val f = VDuration old ->
  Get (Tag f) "type" = "duration" ->
  override env (PtrTo s) (Name f) value = Str raw ->
  regexp.Match_digits raw = false ->
  time.ParseDuration raw = inl d ->
  SetField env (PtrTo s) key value =
  Return (V (store s (Name f) (VDuration d)) (Name f))
         (PtrTo (store s (Name f) (VDuration d))).
Proof.
  intros Hf Hv Ht Ho Hd Hp.
  rewrite (SetStructFieldWithKey_selected _ _ _ _ _ Hf).
  pose proof (field_for_inv _ _ _ Hf) as [_ Hn].
  unfold convert. rewrite Hv, Ho, (tag_of_field _ _ _ _ Hn), Ht.
  cbn [kind_of andb String.eqb Ascii.eqb Bool.eqb].
  now rewrite Hd, Hp.
Qed.

(** C4: when the field that [key] selects names an environment variable in
    its tag [environment] and that variable is set to [v], the call converts
    and assigns [v], not the supplied value, whatever the kind and the tag
    [type] of the field: its outcome is that of the conversion of the string
    [v] on the field followed by the validation, it is the outcome of the
    call with the string [v] and no environment, and afterwards the field
    holds [v] itself (a string), the trimmed parts of [v] (the three split
    modes), the number [v] denotes (an int), the boolean [strToBool] gives
    for [v] (a bool), or the duration [v] parses to (a duration).  When the
    variable is not set the outcome is that of the conversion of the
    supplied value. *)
Theorem environment_overrides_value env s key f value :
  field_for (PtrTo s) key = Some f ->
  let outcome_of x :=
    match conv (PtrTo s) (Name f) f x with
    | Done w =>
      Return (V (store s (Name f) w) (Name f)) (PtrTo (store s (Name f) w))
    | Failed err => Return (Some err) (PtrTo s)
    | Panicked w => Panic (PtrTo (store s (Name f) w))
    end in
  (forall v, LookupEnv env (Get (Tag f) "environment") = Some v ->
     let t' := after (SetField env (PtrTo s) key value) in
     SetField env (PtrTo s) key value = outcome_of (Str v)
     /\ SetField env (PtrTo s) key value
        = SetField no_environment (PtrTo s) key (Str v)
     /\ (forall old, Val f = VString old ->
           Get (Tag f) "type" <> "title_string" ->
           StringFieldWithKey t' key = v)
     /\ (forall old, Val f = VStrings old ->
           Get (Tag f) "type" = "comma_split" ->
           StringListWithKey t' key
           = map strings.TrimSpace (strings.Split v ","))
     /\ (forall old, Val f = VStrings old ->
           Get (Tag f) "type" = "colon_split" ->
           StringListWithKey t' key
           = (old ++ map strings.TrimSpace (strings.Split v ":"))%list)
     /\ (forall old, Val f = VStrings old ->
           Get (Tag f) "type" = "path_split" ->
           StringListWithKey t' key
           = (old ++ map strings.TrimSpace
                         (strings.Split v PathListSeparator))%list)
     /\ (forall old i, Val f = VInt old -> strconv.Atoi v = inl i ->
           IntWithKey t' key = i)
     /\ (forall old, Val f = VBool old ->
           BoolWithKey t' key = fst (strToBool v))
     /\ (forall old d, Val f = VDuration old ->
           Get (Tag f) "type" = "duration" ->
           regexp.Match_digits v = false -> time.ParseDuration v = inl d ->
           field_for t' key = Some (mkField (Name f) (Tag f) (VDuration d))))
  /\ (LookupEnv env (Get (Tag f) "environment") = None ->
      SetField env (PtrTo s) key value = outcome_of value
      /\ SetField env (PtrTo s) key value
         = SetField no_environment (PtrTo s) key value).
Proof.
  intros Hf outcome_of.
  pose proof (field_for_inv _ _ _ Hf) as [_ Hn].
  pose proof (override_of_field env _ _ value Hn) as Ov.
  split.
  - intros v Hv t'. rewrite Hv in Ov.
    split; [|split; [|repeat split]].
    + now rewrite (SetStructFieldWithKey_selected _ _ _ _ _ Hf), Ov.
    + rewrite !(SetStructFieldWithKey_selected _ _ _ _ _ Hf), Ov.
      now rewrite override_no_environment.
    + intros old Hs Ht. unfold t'.
      rewrite (string_call _ _ _ _ _ _ _ Hf Hs Ht Ov). cbn [after].
      unfold StringFieldWithKey.
      now rewrite (getFieldValAndKind_stored _ _ _ _ Hf).
    + intros old Hs Ht. unfold t'.
      rewrite (comma_split_call _ _ _ _ _ _ _ Hf Hs Ht Ov). cbn [after].
      exact (StringListWithKey_stored _ _ _ _ Hf).
    + intros old Hs Ht. unfold t'.
      rewrite (colon_split_call _ _ _ _ _ _ _ Hf Hs Ht Ov). cbn [after].
      exact (StringListWithKey_stored _ _ _ _ Hf).
    + intros old Hs Ht. unfold t'.
      rewrite (path_split_call _ _ _ _ _ _ _ Hf Hs Ht Ov). cbn [after].
      exact (StringListWithKey_stored _ _ _ _ Hf).
    + intros old i Hs Ha. unfold t'.
      rewrite (int_call _ _ _ _ _ _ _ _ Hf Hs Ov Ha). cbn [after].
      unfold IntWithKey.
      now rewrite (getFieldValAndKind_stored _ _ _ _ Hf).
    + intros old Hs. unfold t'.
      rewrite (bool_call _ _ _ _ _ _ _ Hf Hs Ov). cbn [after].
      unfold BoolWithKey.
      now rewrite (getFieldValAndKind_stored _ _ _ _ Hf).
    + intros old d Hs Ht Hd Hp. unfold t'.
      rewrite (duration_parse_call _ _ _ _ _ _ _ _ Hf Hs Ht Ov Hd Hp).
      cbn [after]. exact (field_for_store _ _ _ _ Hf).
  - intros Hv. rewrite Hv in Ov. split.
    + now rewrite (SetStructFieldWithKey_selected _ _ _ _ _ Hf), Ov.
    + rewrite !(SetStructFieldWithKey_selected _ _ _ _ _ Hf), Ov.
      now rewrite override_no_environment.
Qed.

End Properties.

(** ** The properties at the sample structure *)

Lemma non_pointer_target_rejected_witness :
  is_pointer (ByValue Config) = false
  /\ SetStructFieldWithKey no_case_table unix_separator accept_all
       no_environment (ByValue Config) "loglevel" (Str "debug")
     = Return (Some PointerRequired) (ByValue Config)
  /\ SetStructDefaults no_case_table unix_separator accept_all
       no_environment (ByValue Config)
     = Return (Some PointerRequired) (ByValue Config).
Proof.
  split; [reflexivity|].
  apply (non_pointer_target_rejected no_case_table unix_separator accept_all
           no_environment (ByValue Config) "loglevel" (Str "debug")).
  reflexivity.
Defined.

Lemma int64_without_duration_ignored_witness :
  SetStructFieldWithKey no_case_table unix_separator accept_all
    no_environment (PtrTo Config) "size" (Str "12")
  = Return None (PtrTo Config).
Proof.
  apply (int64_without_duration_ignored no_case_table unix_separator
           accept_all no_environment Config "size"
           (mkField "Size" [("confkey", "size")] (VInt64 7)) (Str "12")).
  - reflexivity.
  - reflexivity.
  - simpl. discriminate.
Defined.

Lemma environment_overrides_value_witness :
  LookupEnv servers_env "SERVERS" = Some "a.example, b.example"
  /\ StringListWithKey
       (after (SetStructFieldWithKey no_case_table unix_separator accept_all
                 servers_env (PtrTo Config) "servers" (Str "c.example")))
       "servers"
     = ["a.example"; "b.example"].
Proof.
  split; [reflexivity|].
  destruct (environment_overrides_value no_case_table unix_separator
              accept_all servers_env Config "servers"
              (mkField "Servers"
                 [("confkey", "servers"); ("type", "comma_split");
                  ("environment", "SERVERS")] (VStrings []))
              (Str "c.example") eq_refl) as [H _].
  destruct (H "a.example, b.example" eq_refl) as (_ & _ & _ & Hc & _).
  exact (Hc [] eq_refl eq_refl).
Defined.

Lemma comma_split_replaces_contents_witness :
  SetStructFieldWithKey no_case_table unix_separator accept_all
    no_environment (PtrTo Config) "servers" (Str "a, b ,c")
  = Return None (PtrTo (store Config "Servers" (VStrings ["a"; "b"; "c"]))).
Proof.
  apply (comma_split_replaces_contents no_case_table unix_separator
           accept_all no_environment Config "servers"
           (mkField "Servers"
              [("confkey", "servers"); ("type", "comma_split");
               ("environment", "SERVERS")] (VStrings []))
           [] (Str "a, b ,c") "a, b ,c"); reflexivity.
Defined.

Lemma colon_split_appends_witness :
  SetStructFieldWithKey no_case_table unix_separator accept_all
    no_environment (PtrTo Config) "libdir" (Str "a:b:c")
  = Return None (PtrTo (store Config "Libdir" (VStrings ["a"; "b"; "c"]))).
Proof.
  apply (colon_split_appends no_case_table unix_separator accept_all
           no_environment Config "libdir"
           (mkField "Libdir" [("confkey", "libdir"); ("type", "colon_split")]
              (VStrings []))
           [] (Str "a:b:c") "a:b:c"); reflexivity.
Defined.

Lemma duration_conversion_witness :
  SetStructFieldWithKey no_case_table unix_separator accept_all
    no_environment (PtrTo Config) "interval" (Str "1h")
  = Return None (PtrTo (store Config "I" (VDuration (3600 * time.Second)))).
Proof.
  apply (duration_conversion no_case_table unix_separator accept_all
           no_environment Config "interval"
           (mkField "I"
              [("confkey", "interval"); ("type", "duration");
               ("default", "1h")] (VDuration 0))
           0 (Str "1h") "1h"); try reflexivity.
  right. reflexivity.
Defined.

Lemma typed_accessors_zero_on_miss_witness :
  StringFieldWithKey (PtrTo Config) "undeclared" = ""
  /\ StringFieldWithKey (PtrTo Config) "port" = "".
Proof.
  split.
  - apply (typed_accessors_zero_on_miss (PtrTo Config) "undeclared").
    left. simpl. intros f H.
    repeat (destruct H as [<- | H]; [simpl; discriminate|]).
    destruct H.
  - apply (typed_accessors_zero_on_miss (PtrTo Config) "port").
    right. exists (mkField "Port" [("confkey", "port")] (VInt 0)).
    split; [reflexivity|simpl; discriminate].
Defined.

(** C7: ["9223372037"] is all digits, so the field of type
    [time.Duration] should hold 9223372037 seconds; the product
    [time.Second * time.Duration(i)] is not checked for overflow and the
    field ends up holding a negative duration, with no error returned.  The
    other branch of the same case rejects this quantity: [ParseDuration]
    fails on ["9223372037s"], and the call with that string returns the
    error and leaves the field as it was. *)
Theorem duration_seconds_wrap_around :
  regexp.Match_digits "9223372037" = true
  /\ SetStructFieldWithKey no_case_table unix_separator accept_all
       no_environment (PtrTo Config) "interval" (Str "9223372037")
     = Return None
         (PtrTo (store Config "I" (VDuration (-9223372036709551616))))
  /\ -9223372036709551616 <> 9223372037 * time.Second
  /\ time.ParseDuration "9223372037s"
     = inr (InvalidDuration "9223372037s")
  /\ SetStructFieldWithKey no_case_table unix_separator accept_all
       no_environment (PtrTo Config) "interval" (Str "9223372037s")
     = Return (Some (InvalidDuration "9223372037s")) (PtrTo Config).
Proof.
  split; [reflexivity|]. split; [reflexivity|]. split; [discriminate|].
  split; reflexivity.
Qed.

(** C8: the accessors are to fall back to the zero value and never fail,
    but [Int64WithKey] asserts [val.(int64)] without the check its four
    siblings make: on the field [I time.Duration] of the sample structure,
    whose kind is [Int64], it panics, before and after the field has been
    set through [SetStructFieldWithKey]; [IntWithKey] on a field of a named
    integer type returns 0. *)
Theorem Int64WithKey_panics_on_duration :
  Int64WithKey (PtrTo Config) "interval" = Panics
  /\ Int64WithKey
       (after (SetStructFieldWithKey no_case_table unix_separator accept_all
                 no_environment (PtrTo Config) "interval" (Str "1h")))
       "interval" = Panics
  /\ IntWithKey
       (PtrTo [mkField "Level" [("confkey", "level")] (VOther reflect.Int)])
       "level" = 0.
Proof. repeat split. Qed.

(** ** The further properties at sample structures *)

Lemma fieldWithKey_first_match_witness :
  fieldWithKey
    (PtrTo [mkField "A" [("confkey", "a")] (VInt 0);
            mkField "B" [("confkey", "k")] (VString "");
            mkField "C" [("confkey", "k")] (VBool false)]) "k"
  = inl "B".
Proof.
  apply (fieldWithKey_first_match
           [mkField "A" [("confkey", "a")] (VInt 0)]
           (mkField "B" [("confkey", "k")] (VString ""))
           [mkField "C" [("confkey", "k")] (VBool false)] "k").
  - intros g [<- | []]. simpl. discriminate.
  - reflexivity.
  - simpl. intros [H | []]. discriminate.
Defined.

Lemma fieldWithKey_sound_witness :
  exists f, field_for (PtrTo Config) "port" = Some f
            /\ Name f = "Port"
            /\ In f (fields_of (PtrTo Config))
            /\ Get (Tag f) "confkey" = "port".
Proof.
  apply (fieldWithKey_sound (PtrTo Config) "port" "Port"). reflexivity.
Defined.

Lemma unknown_key_rejected_witness :
  SetStructFieldWithKey no_case_table unix_separator accept_all
    no_environment (PtrTo Config) "undeclared" (Str "x")
  = Return (Some (NoFieldWithConfkey "undeclared")) (PtrTo Config).
Proof.
  apply (unknown_key_rejected no_case_table unix_separator accept_all
           no_environment Config "undeclared" (Str "x")).
  simpl. intros f H.
  repeat (destruct H as [<- | H]; [simpl; discriminate|]).
  destruct H.
Defined.

Lemma string_field_assigned_verbatim_witness :
  SetStructFieldWithKey no_case_table unix_separator accept_all
    no_environment (PtrTo Config) "loglevel" (Str " debug ")
  = Return None (PtrTo (store Config "Loglevel" (VString " debug "))).
Proof.
  apply (string_field_assigned_verbatim no_case_table unix_separator
           accept_all no_environment Config "loglevel"
           (mkField "Loglevel"
              [("confkey", "loglevel"); ("default", "warn");
               ("validate", "enum=debug,info,warn,error")] (VString ""))
           "" (Str " debug ") " debug "); try reflexivity.
  simpl. discriminate.
Defined.

Lemma int_field_conversion_witness :
  SetStructFieldWithKey no_case_table unix_separator accept_all
    no_environment (PtrTo Config) "port" (Str "8080")
  = Return None (PtrTo (store Config "Port" (VInt 8080)))
  /\ IntWithKey (PtrTo (store Config "Port" (VInt 8080))) "port" = 8080.
Proof.
  apply (int_field_conversion no_case_table unix_separator accept_all
           no_environment Config "port"
           (mkField "Port" [("confkey", "port")] (VInt 0))
           0 (Str "8080") "8080"); try reflexivity.
Defined.

Lemma bool_field_recognised_witness :
  SetStructFieldWithKey no_case_table unix_separator accept_all
    no_environment (PtrTo Config) "daemonize" (Str " No ")
  = Return None (PtrTo (store Config "Daemonize" (VBool false))).
Proof.
  apply (bool_field_recognised no_case_table unix_separator accept_all
           no_environment Config "daemonize"
           (mkField "Daemonize" [("confkey", "daemonize")] (VBool true))
           true (Str " No ") " No " false); reflexivity.
Defined.

Lemma typed_accessors_on_hit_witness :
  Int64WithKey (PtrTo Config) "interval" = Panics
  /\ Int64WithKey (PtrTo Config) "size" = Ret 7.
Proof.
  split.
  - apply (typed_accessors_on_hit (PtrTo Config) "interval"
             (mkField "I"
                [("confkey", "interval"); ("type", "duration");
                 ("default", "1h")] (VDuration 0))
             eq_refl) with (d := 0).
    reflexivity.
  - apply (typed_accessors_on_hit (PtrTo Config) "size"
             (mkField "Size" [("confkey", "size")] (VInt64 7)) eq_refl).
    reflexivity.
Defined.

Lemma path_split_appends_witness :
  SetStructFieldWithKey no_case_table unix_separator accept_all
    no_environment (PtrTo Config) "path" (Str "/bin: /usr/bin")
  = Return None (PtrTo (store Config "Path" (VStrings ["/bin"; "/usr/bin"]))).
Proof.
  apply (path_split_appends no_case_table unix_separator accept_all
           no_environment Config "path"
           (mkField "Path"
              [("confkey", "path"); ("type", "path_split");
               ("default", "/bin:/usr/bin")] (VStrings []))
           [] (Str "/bin: /usr/bin") "/bin: /usr/bin"); reflexivity.
Defined.

Lemma Config_names_distinct : NoDup (map Name Config).
Proof.
  simpl. repeat constructor; simpl; intuition discriminate.
Defined.

Lemma Config_keys_unique : keys_unique Config.
Proof.
  intros f g Hf Hg. simpl in Hf, Hg.
  repeat (destruct Hf as [<- | Hf]; [|]);
    try (destruct Hf);
    repeat (destruct Hg as [<- | Hg]; [|]);
    try (destruct Hg); simpl; intros E N;
    try reflexivity; discriminate.
Defined.

Lemma defaults_pass_assigns_witness :
  exists s',
    SetStructDefaults no_case_table unix_separator accept_all no_environment
      (PtrTo Config) = Return None (PtrTo s')
    /\ FieldByName s' "Path"
       = Some (mkField "Path"
                 [("confkey", "path"); ("type", "path_split");
                  ("default", "/bin:/usr/bin")]
                 (VStrings ["/bin"; "/usr/bin"]))
    /\ FieldByName s' "Port"
       = Some (mkField "Port" [("confkey", "port")] (VInt 0)).
Proof.
  destruct (defaults_pass_assigns no_case_table unix_separator accept_all
              no_environment Config
              (after (SetStructDefaults no_case_table unix_separator
                        accept_all no_environment (PtrTo Config)))
              Config_names_distinct Config_keys_unique eq_refl)
    as (s' & E & H).
  exists s'. split; [now rewrite <- E|]. split.
  - destruct (H (mkField "Path"
                   [("confkey", "path"); ("type", "path_split");
                    ("default", "/bin:/usr/bin")] (VStrings [])))
      as (v & Ev & Es).
    + simpl. tauto.
    + injection Ev as <-. exact Es.
  - apply (H (mkField "Port" [("confkey", "port")] (VInt 0))).
    simpl. tauto.
Defined.

Lemma defaults_pass_read_back_witness :
  StringFieldWithKey
    (after (SetStructDefaults no_case_table unix_separator accept_all
              no_environment (PtrTo Config))) "loglevel" = "warn".
Proof.
  apply (defaults_pass_read_back no_case_table unix_separator accept_all
           no_environment Config _
           (mkField "Loglevel"
              [("confkey", "loglevel"); ("default", "warn");
               ("validate", "enum=debug,info,warn,error")] (VString ""))
           "" "warn" Config_names_distinct Config_keys_unique eq_refl);
    try reflexivity.
  - simpl. tauto.
  - simpl. discriminate.
Defined.

Lemma defaults_pass_without_defaults_witness :
  SetStructDefaults no_case_table unix_separator accept_all no_environment
    (PtrTo [mkField "Tags" [("confkey", "tags")] (VStrings []);
            mkField "Note" [("default", "none")] (VString "")])
  = Return None
      (PtrTo [mkField "Tags" [("confkey", "tags")] (VStrings []);
              mkField "Note" [("default", "none")] (VString "")]).
Proof.
  apply (defaults_pass_without_defaults no_case_table unix_separator
           accept_all no_environment).
  intros f [<- | [<- | []]]; reflexivity.
Defined.

Lemma defaults_pass_stops_at_first_error_witness :
  SetStructDefaults no_case_table unix_separator accept_all no_environment
    (PtrTo [mkField "Tags" [("confkey", "tags")] (VStrings []);
            mkField "Port" [("confkey", "port"); ("default", "http")]
              (VInt 0);
            mkField "Mode" [("confkey", "mode"); ("default", "server")]
              (VString "")])
  = Return (Some (NumError "Atoi" "http" ErrSyntax))
      (PtrTo [mkField "Tags" [("confkey", "tags")] (VStrings []);
              mkField "Port" [("confkey", "port"); ("default", "http")]
                (VInt 0);
              mkField "Mode" [("confkey", "mode"); ("default", "server")]
                (VString "")]).
Proof.
  apply (defaults_pass_stops_at_first_error no_case_table unix_separator
           accept_all no_environment
           [mkField "Tags" [("confkey", "tags")] (VStrings [])]
           (mkField "Port" [("confkey", "port"); ("default", "http")]
              (VInt 0))
           [mkField "Mode" [("confkey", "mode"); ("default", "server")]
              (VString "")]); try reflexivity.
  - intros g [<- | []]. reflexivity.
  - simpl. intros [H | []]. discriminate.
Defined.

Lemma strToBool_ascii_witness :
  is_ascii (strings.TrimSpace " Yes ") = true
  /\ strToBool " Yes " = (true, None).
Proof.
  split; [reflexivity|].
  apply (strToBool_ascii " Yes "). reflexivity.
Defined.

Lemma title_string_ascii_witness :
  SetStructFieldWithKey no_case_table unix_separator accept_all
    no_environment (PtrTo Config) "identity" (Str "choria")
  = Return None (PtrTo (store Config "Identity" (VString "Choria"))).
Proof.
  apply (title_string_ascii no_case_table unix_separator accept_all
           no_environment Config "identity"
           (mkField "Identity"
              [("confkey", "identity"); ("type", "title_string")]
              (VString "node"))
           "node" (Str "choria") "c"%char "horia"); reflexivity.
Defined.

Lemma non_string_value_panics_witness :
  SetStructFieldWithKey no_case_table unix_separator accept_all
    no_environment (PtrTo Config) "port" NotStr
  = Panic (PtrTo Config).
Proof.
  apply (non_string_value_panics no_case_table unix_separator accept_all
           no_environment Config "port"
           (mkField "Port" [("confkey", "port")] (VInt 0)));
    try reflexivity.
  right. right. now exists 0.
Defined.
